(** * Terminal Shadow: event filter, handoff updater and heartbeat service

    A shallow embedding of [src/filter.py], [src/updater.py] and
    [src/heartbeat.py] together with the properties of their
    specification.

    Python text ([str]) is a sequence of Unicode code points, so a string
    is a [list N]; [len], slicing and indexing count code points exactly
    as Python does.  Integers ([int]) are [Z]. *)

From Stdlib Require Import ZArith NArith Lia.
From Stdlib Require Import Strings.String Strings.Ascii.
From Stdlib Require Import Decimal DecimalString.
From stdpp Require Import base list gmap.

Abbreviation length := List.length.

Set Default Proof Using "Type".

(* ===================================================================== *)
(** * Python strings                                                      *)
(* ===================================================================== *)

Module Py.

Abbreviation char := N.
Abbreviation str := (list N).

(** Source literals are UTF-8 text; [u] turns a literal of this file into
    the code points Python sees. *)
Fixpoint utf8_decode (bs : list N) : str :=
  match bs with
  | [] => []
  | b0 :: t0 =>
    if (b0 <? 128)%N then b0 :: utf8_decode t0
    else match t0 with
      | [] => [b0]
      | b1 :: t1 =>
        if (b0 <? 224)%N
        then ((b0 mod 32) * 64 + b1 mod 64)%N :: utf8_decode t1
        else match t1 with
          | [] => [b0; b1]
          | b2 :: t2 =>
            if (b0 <? 240)%N
            then ((b0 mod 16) * 4096 + (b1 mod 64) * 64 + b2 mod 64)%N
                   :: utf8_decode t2
            else match t2 with
              | [] => [b0; b1; b2]
              | b3 :: t3 =>
                ((b0 mod 8) * 262144 + (b1 mod 64) * 4096
                 + (b2 mod 64) * 64 + b3 mod 64)%N :: utf8_decode t3
              end
          end
      end
  end.

Definition u (s : string) : str :=
  utf8_decode (map N_of_ascii (list_ascii_of_string s)).
Arguments u s%_string.

Definition NL : char := 10%N.

(** [a == b] on strings. *)
Fixpoint str_eqb (a b : str) : bool :=
  match a, b with
  | [], [] => true
  | x :: a', y :: b' => (x =? y)%N && str_eqb a' b'
  | _, _ => false
  end.

(** [s.startswith(p)] *)
Fixpoint starts_with (p s : str) : bool :=
  match p, s with
  | [], _ => true
  | _ :: _, [] => false
  | a :: p', b :: s' => (a =? b)%N && starts_with p' s'
  end.

(** [sub in s] *)
Fixpoint contains (sub s : str) : bool :=
  starts_with sub s ||
  match s with
  | [] => false
  | _ :: s' => contains sub s'
  end.

(** [c in s] for a single character. *)
Definition has_char (c : char) (s : str) : bool :=
  existsb (N.eqb c) s.

(** [str.isspace] on one character: the code points Python treats as
    whitespace ([Py_UNICODE_ISSPACE]); [strip()], [split()] and the
    regular-expression class [\s] all use this table. *)
Definition is_space (c : char) : bool :=
  ((9 <=? c) && (c <=? 13) || (28 <=? c) && (c <=? 32)
   || (c =? 133) || (c =? 160) || (c =? 5760)
   || (8192 <=? c) && (c <=? 8202)
   || (c =? 8232) || (c =? 8233) || (c =? 8239) || (c =? 8287)
   || (c =? 12288))%N.

Fixpoint lstrip (s : str) : str :=
  match s with
  | [] => []
  | c :: s' => if is_space c then lstrip s' else s
  end.

Definition rstrip (s : str) : str := rev (lstrip (rev s)).

(** [s.strip()] *)
Definition strip (s : str) : str := lstrip (rstrip s).

(** [sep.join(parts)] *)
Fixpoint join (sep : str) (parts : list str) : str :=
  match parts with
  | [] => []
  | [p] => p
  | p :: ps => p ++ sep ++ join sep ps
  end.

Definition cons_head (c : char) (ps : list str) : list str :=
  match ps with
  | [] => [[c]]
  | p :: ps' => (c :: p) :: ps'
  end.

(** [s.split(sep)] for a non-empty separator: occurrences are found left
    to right and do not overlap.  [skip] counts the characters of the
    separator occurrence being stepped over. *)
Fixpoint split_from (sep : str) (skip : nat) (s : str) : list str :=
  match s with
  | [] => [[]]
  | c :: s' =>
    match skip with
    | S k => split_from sep k s'
    | O =>
      if starts_with sep s
      then [] :: split_from sep (length sep - 1) s'
      else cons_head c (split_from sep 0 s')
    end
  end.

Definition split (sep s : str) : list str := split_from sep 0 s.

(** [s.split('\n')] *)
Definition split_lines (s : str) : list str := split [NL] s.

(** [s.split()] with no argument: maximal runs of non-whitespace. *)
Fixpoint words_from (cur : option str) (s : str) : list str :=
  match s with
  | [] => match cur with Some w => [rev w] | None => [] end
  | c :: s' =>
    if is_space c
    then match cur with
         | Some w => rev w :: words_from None s'
         | None => words_from None s'
         end
    else match cur with
         | Some w => words_from (Some (c :: w)) s'
         | None => words_from (Some [c]) s'
         end
  end.

Definition split_ws (s : str) : list str := words_from None s.

(** [s[:n]] for an integer [n]: a negative bound counts from the end. *)
Definition slice_to {A} (n : Z) (s : list A) : list A :=
  if (0 <=? n)%Z then take (Z.to_nat n) s
  else take (length s - Z.to_nat (- n)) s.

(** [str(n)] for an integer. *)
Definition str_of_Z (n : Z) : str :=
  map N_of_ascii
      (list_ascii_of_string (NilEmpty.string_of_int (Z.to_int n))).

Definition str_of_nat (n : nat) : str := str_of_Z (Z.of_nat n).

End Py.
Import Py.

(* ===================================================================== *)
(** * Regular expressions (Python's [re])                                 *)
(* ===================================================================== *)

(** The fragment of [re] the program's patterns are written in, matched by
    backtracking the way [re] does: alternatives left to right, greedy
    repetition, leftmost match. *)
Module Re.

(** What the matcher reads from the Unicode character database. *)
Record tables := {
  lower : str -> str;            (* [str.lower()] *)
  ci_eq : char -> char -> bool;  (* equal under [re.IGNORECASE] *)
  is_word : char -> bool;        (* [\w] *)
  is_digit : char -> bool;       (* [\d] *)
}.

Inductive citem :=
| CChar (c : char)
| CRange (lo hi : char)
| CSpace
| CDigit.

Inductive regex :=
| Eps
| Lit (c : char)
| Any                               (* [.] : anything but a newline *)
| Cls (neg : bool) (items : list citem)
| Seq (r1 r2 : regex)
| Alt (r1 r2 : regex)
| Star (r : regex)
| Rep (lo hi : nat) (r : regex)     (* [r{lo,hi}] *)
| Grp (i : nat) (r : regex)         (* capturing group number [i] *)
| Bol                               (* [^] *)
| WordB.                            (* [\b] *)

(** A position in the subject: the character just before it (if any), the
    text still ahead, and the groups captured so far. *)
Record pos := {
  before : option char;
  rest : str;
  caps : list (nat * str);
}.

Definition start_pos (prev : option char) (s : str) : pos :=
  {| before := prev; rest := s; caps := [] |}.

Definition advance (c : char) (s : str) (p : pos) : pos :=
  {| before := Some c; rest := s; caps := caps p |}.

Definition set_cap (i : nat) (txt : str) (p : pos) : pos :=
  {| before := before p; rest := rest p; caps := (i, txt) :: caps p |}.

Fixpoint get_cap (i : nat) (cs : list (nat * str)) : option str :=
  match cs with
  | [] => None
  | (j, txt) :: cs' => if Nat.eqb i j then Some txt else get_cap i cs'
  end.

Section Matcher.
Variable T : tables.
(** [re.IGNORECASE] *)
Variable ic : bool.

Definition item_has (x : char) (it : citem) : bool :=
  match it with
  | CChar c => (x =? c)%N
  | CRange lo hi => ((lo <=? x) && (x <=? hi))%N
  | CSpace => is_space x
  | CDigit => is_digit T x
  end.

Definition lit_eq (c x : char) : bool :=
  if ic then ci_eq T c x else (c =? x)%N.

Definition word_before (p : pos) : bool :=
  match before p with Some c => is_word T c | None => false end.

Definition word_ahead (p : pos) : bool :=
  match rest p with c :: _ => is_word T c | [] => false end.

Definition one (ok : char -> bool) (p : pos) (k : pos -> option pos)
  : option pos :=
  match rest p with
  | c :: s => if ok c then k (advance c s p) else None
  | [] => None
  end.

(** Greedy [body*] followed by [k]: as many rounds of [body] as possible,
    giving rounds back one by one until [k] succeeds.  A round that
    consumes nothing ends the repetition; [fuel], the number of characters
    ahead, bounds the rounds. *)
Fixpoint star_loop (body : pos -> (pos -> option pos) -> option pos)
    (k : pos -> option pos) (fuel : nat) (p : pos) {struct fuel}
  : option pos :=
  match fuel with
  | O => k p
  | S f =>
    match body p (fun p' => if length (rest p') <? length (rest p)
                            then star_loop body k f p' else None) with
    | Some q => Some q
    | None => k p
    end
  end.

(** Greedy [body{lo,hi}] followed by [k]; [done] rounds are behind,
    at most [left] more may follow. *)
Fixpoint rep_loop (body : pos -> (pos -> option pos) -> option pos)
    (k : pos -> option pos) (lo done left : nat) (p : pos) {struct left}
  : option pos :=
  match left with
  | O => if lo <=? done then k p else None
  | S l =>
    match body p (fun p' => rep_loop body k lo (S done) l p') with
    | Some q => Some q
    | None => if lo <=? done then k p else None
    end
  end.

(** [rmatch r p k]: match [r] at [p], then the continuation [k]; the first
    way that lets [k] succeed wins. *)
Fixpoint rmatch (r : regex) (p : pos) (k : pos -> option pos) {struct r}
  : option pos :=
  match r with
  | Eps => k p
  | Lit c => one (lit_eq c) p k
  | Any => one (fun x => negb (x =? NL)%N) p k
  | Cls neg items => one (fun x => xorb neg (existsb (item_has x) items)) p k
  | Seq r1 r2 => rmatch r1 p (fun p' => rmatch r2 p' k)
  | Alt r1 r2 =>
    match rmatch r1 p k with
    | Some q => Some q
    | None => rmatch r2 p k
    end
  | Star r' => star_loop (rmatch r') k (length (rest p)) p
  | Rep lo hi r' => rep_loop (rmatch r') k lo 0 hi p
  | Grp i r' =>
    rmatch r' p
      (fun p' =>
         k (set_cap i (take (length (rest p) - length (rest p')) (rest p)) p'))
  | Bol => match before p with None => k p | Some _ => None end
  | WordB => if xorb (word_before p) (word_ahead p) then k p else None
  end.

(** A match object: the matched text ([group(0)]) and the groups. *)
Record mres := { m_text : str; m_caps : list (nat * str) }.

Definition m_group (i : nat) (m : mres) : option str :=
  match i with
  | O => Some (m_text m)
  | _ => get_cap i (m_caps m)
  end.

(** One attempt at the position that has [prev] behind and [s] ahead:
    the match and its length. *)
Definition match_here (r : regex) (prev : option char) (s : str)
  : option (mres * nat) :=
  match rmatch r (start_pos prev s) Some with
  | Some q =>
    let n := length s - length (rest q) in
    Some ({| m_text := take n s; m_caps := caps q |}, n)
  | None => None
  end.

(** [re.search]: the leftmost match. *)
Fixpoint search_from (r : regex) (prev : option char) (s : str)
  : option mres :=
  match match_here r prev s with
  | Some (m, _) => Some m
  | None =>
    match s with
    | [] => None
    | c :: s' => search_from r (Some c) s'
    end
  end.

Definition search (r : regex) (s : str) : option mres :=
  search_from r None s.

(** All non-overlapping matches, left to right.  [skip] counts the
    characters of the current match still to step over.  (None of the
    program's patterns can match the empty string.) *)
Fixpoint finditer_from (r : regex) (prev : option char) (skip : nat)
    (s : str) : list mres :=
  match skip with
  | S k =>
    match s with
    | [] => []
    | c :: s' => finditer_from r (Some c) k s'
    end
  | O =>
    match match_here r prev s with
    | Some (m, n) =>
      m :: match s with
           | [] => []
           | c :: s' => finditer_from r (Some c) (n - 1) s'
           end
    | None =>
      match s with
      | [] => []
      | c :: s' => finditer_from r (Some c) 0 s'
      end
    end
  end.

(** [re.findall] for a pattern with exactly one capturing group: the text
    of group 1 of every match. *)
Definition findall1 (r : regex) (s : str) : list str :=
  map (fun m => default [] (m_group 1 m)) (finditer_from r None 0 s).

(** [re.sub(r, repl, s)] for a replacement text without escapes. *)
Fixpoint sub_from (r : regex) (repl : str) (prev : option char)
    (skip : nat) (s : str) : str :=
  match skip with
  | S k =>
    match s with
    | [] => []
    | c :: s' => sub_from r repl (Some c) k s'
    end
  | O =>
    match match_here r prev s with
    | Some (_, n) =>
      repl ++ match s with
              | [] => []
              | c :: s' =>
                (if Nat.eqb n 0 then [c] else [])
                  ++ sub_from r repl (Some c) (n - 1) s'
              end
    | None =>
      match s with
      | [] => []
      | c :: s' => c :: sub_from r repl (Some c) 0 s'
      end
    end
  end.

Definition sub (r : regex) (repl s : str) : str :=
  sub_from r repl None 0 s.

End Matcher.

(** Pattern text to syntax, piece by piece. *)
Fixpoint lits (s : str) : regex :=
  match s with
  | [] => Eps
  | [c] => Lit c
  | c :: s' => Seq (Lit c) (lits s')
  end.

Definition lit (s : string) : regex := lits (u s).
Arguments lit s%_string.

Fixpoint seqs (rs : list regex) : regex :=
  match rs with
  | [] => Eps
  | [r] => r
  | r :: rs' => Seq r (seqs rs')
  end.

Fixpoint alts (rs : list regex) : regex :=
  match rs with
  | [] => Eps
  | [r] => r
  | r :: rs' => Alt r (alts rs')
  end.

(** The tables on the ASCII range, where they are the same on every
    version of the Unicode database: enough to run the program on ASCII
    text. *)
Definition ascii_lower (c : char) : char :=
  if ((65 <=? c) && (c <=? 90))%N then (c + 32)%N else c.

Definition ascii_tables : tables :=
  {| lower := map ascii_lower;
     ci_eq := fun a b => (ascii_lower a =? ascii_lower b)%N;
     is_word := fun c =>
       ((48 <=? c) && (c <=? 57) || (65 <=? c) && (c <=? 90)
        || (97 <=? c) && (c <=? 122) || (c =? 95))%N;
     is_digit := fun c => ((48 <=? c) && (c <=? 57))%N |}.

Definition Plus (r : regex) : regex := Seq r (Star r).
Definition Opt (r : regex) : regex := Rep 0 1 r.
Definition ch (s : string) : char := default 0%N (head (u s)).
Arguments ch s%_string.
(** [\s], [\d], [[^\n]] *)
Definition Space : regex := Cls false [CSpace].
Definition Digit : regex := Cls false [CDigit].
Definition NotNL : regex := Cls true [CChar NL].
(** [[a-zA-Z]] *)
Definition letters : list citem :=
  [CRange (ch "a") (ch "z"); CRange (ch "A") (ch "Z")].

End Re.
Import Re.

(* ===================================================================== *)
(** * [wrapper.py]: the execution outcome                                 *)
(* ===================================================================== *)

(** A naive [datetime]. *)
Record datetime := {
  year : N; month : N; day : N;
  hour : N; minute : N; second : N; microsecond : N;
}.

Definition digits (n : N) : str :=
  map N_of_ascii
      (list_ascii_of_string (NilEmpty.string_of_uint (N.to_uint n))).

(** Two-digit, zero-padded field of [strftime] ([%m], [%d], [%H], ...). *)
Definition pad2 (n : N) : str :=
  if (n <? 10)%N then u "0" ++ digits n else digits n.

(** [%Y-%m-%d] *)
Definition fmt_date (t : datetime) : str :=
  digits (year t) ++ u "-" ++ pad2 (month t) ++ u "-" ++ pad2 (day t).

(** [strftime("%Y-%m-%d %H:%M:%S")] *)
Definition fmt_seconds (t : datetime) : str :=
  fmt_date t ++ u " " ++ pad2 (hour t) ++ u ":" ++ pad2 (minute t)
    ++ u ":" ++ pad2 (second t).

(** [strftime("%Y-%m-%d %H:%M UTC")] *)
Definition fmt_minutes_utc (t : datetime) : str :=
  fmt_date t ++ u " " ++ pad2 (hour t) ++ u ":" ++ pad2 (minute t)
    ++ u " UTC".

(** [CommandResult] *)
Record CommandResult := {
  command : str;
  stdout : str;
  stderr : str;
  exit_code : Z;
  duration_ms : Z;
  working_dir : str;
  timestamp : datetime;
}.

(* ===================================================================== *)
(** * [filter.py]: the event filter                                       *)
(* ===================================================================== *)

Inductive EventType := ERROR | SUCCESS | DECISION | NOISE.

Definition EventType_eqb (a b : EventType) : bool :=
  match a, b with
  | ERROR, ERROR | SUCCESS, SUCCESS | DECISION, DECISION | NOISE, NOISE => true
  | _, _ => false
  end.

(** A pattern as configured: its text, and the expression [re] compiles
    it to. *)
Record pattern := { src : str; ast : regex }.

Definition pat (s : string) (r : regex) : pattern :=
  {| src := u s; ast := r |}.
Arguments pat s%_string r.

Record EventFilter := {
  IGNORE_COMMANDS : gset str;
  SIGNIFICANT_PATTERNS : list pattern;
  ALWAYS_CAPTURE : gset str;
}.

Definition set_of (l : list string) : gset str := list_to_set (map u l).

Definition word (s : string) : regex := seqs [WordB; lit s; WordB].
Arguments word s%_string.

(** The defaults of [__post_init__]. *)
Definition default_IGNORE_COMMANDS : gset str :=
  set_of [ "ls"; "ll"; "la"; "l"; "dir";
           "cd"; "pwd";
           "clear"; "cls";
           "exit"; "quit";
           "cat"; "head"; "tail"; "less"; "more";
           "echo"; "printf";
           "which"; "whereis"; "type";
           "history";
           "whoami"; "id";
           "date"; "uptime" ]%string.

Definition default_SIGNIFICANT_PATTERNS : list pattern :=
  [ pat "\berror\b" (word "error");
    pat "\bError\b" (word "Error");
    pat "\bERROR\b" (word "ERROR");
    pat "\bexception\b" (word "exception");
    pat "\bException\b" (word "Exception");
    pat "\bEXCEPTION\b" (word "EXCEPTION");
    pat "\btraceback\b" (word "traceback");
    pat "\bTraceback\b" (word "Traceback");
    pat "\bfail(ed|ure)?\b"
        (seqs [WordB; lit "fail"; Opt (Grp 1 (Alt (lit "ed") (lit "ure")));
               WordB]);
    pat "\bFail(ed|ure)?\b"
        (seqs [WordB; lit "Fail"; Opt (Grp 1 (Alt (lit "ed") (lit "ure")));
               WordB]);
    pat "\bFAIL\b" (word "FAIL");
    pat "\bfatal\b" (word "fatal");
    pat "\bFatal\b" (word "Fatal");
    pat "\bFATAL\b" (word "FATAL");
    pat "\bpanic\b" (word "panic");
    pat "\bPanic\b" (word "Panic");
    pat "\bPANIC\b" (word "PANIC");
    pat "\bcrash(ed)?\b"
        (seqs [WordB; lit "crash"; Opt (Grp 1 (lit "ed")); WordB]);
    pat "\bCrash(ed)?\b"
        (seqs [WordB; lit "Crash"; Opt (Grp 1 (lit "ed")); WordB]);
    pat "\btimeout\b" (word "timeout");
    pat "\bTimeout\b" (word "Timeout");
    pat "\bcreated?\b.*\bfile\b"
        (seqs [WordB; lit "create"; Opt (lit "d"); WordB; Star Any;
               WordB; lit "file"; WordB]);
    pat "\bmodified?\b.*\bfiles?\b"
        (seqs [WordB; lit "modifie"; Opt (lit "d"); WordB; Star Any;
               WordB; lit "file"; Opt (lit "s"); WordB]);
    pat "\bpassed?\b.*\btests?\b"
        (seqs [WordB; lit "passe"; Opt (lit "d"); WordB; Star Any;
               WordB; lit "test"; Opt (lit "s"); WordB]);
    pat "\bcommitted?\b"
        (seqs [WordB; lit "committe"; Opt (lit "d"); WordB]);
    pat "\bdeployed?\b"
        (seqs [WordB; lit "deploye"; Opt (lit "d"); WordB]);
    pat "\bbuild\s+succeeded\b"
        (seqs [WordB; lit "build"; Plus Space; lit "succeeded"; WordB]);
    pat "\ball\s+tests\s+passed\b"
        (seqs [WordB; lit "all"; Plus Space; lit "tests"; Plus Space;
               lit "passed"; WordB]) ].

Definition default_ALWAYS_CAPTURE : gset str :=
  set_of [ "git commit"; "git push"; "git merge";
           "go build"; "go test"; "go run";
           "npm test"; "npm run build"; "npm install";
           "pytest"; "python -m pytest";
           "cargo build"; "cargo test";
           "make"; "make test"; "make build";
           "docker build"; "docker push"; "docker compose";
           "kubectl apply"; "kubectl deploy" ]%string.

Definition default_filter : EventFilter :=
  {| IGNORE_COMMANDS := default_IGNORE_COMMANDS;
     SIGNIFICANT_PATTERNS := default_SIGNIFICANT_PATTERNS;
     ALWAYS_CAPTURE := default_ALWAYS_CAPTURE |}.

(** The words that make a matched pattern an error pattern. *)
Definition error_words : list str :=
  map u ["error"; "fail"; "exception"; "panic"; "crash"]%string.

Definition decision_patterns : list regex :=
  [ (* ^git\s+(commit|push|merge|rebase|checkout) *)
    seqs [Bol; lit "git"; Plus Space;
          Grp 1 (alts [lit "commit"; lit "push"; lit "merge"; lit "rebase";
                       lit "checkout"])];
    (* ^gh\s+ *)
    seqs [Bol; lit "gh"; Plus Space];
    (* ^docker\s+(build|push|run) *)
    seqs [Bol; lit "docker"; Plus Space;
          Grp 1 (alts [lit "build"; lit "push"; lit "run"])];
    (* ^kubectl\s+ *)
    seqs [Bol; lit "kubectl"; Plus Space];
    (* ^terraform\s+(apply|destroy) *)
    seqs [Bol; lit "terraform"; Plus Space;
          Grp 1 (alts [lit "apply"; lit "destroy"])] ].

(** [(pattern, group)] pairs of [extract_error_summary], in priority
    order. *)
Definition priority_patterns : list (regex * nat) :=
  [ (* panic: (.+) *)
    (seqs [lit "panic: "; Grp 1 (Plus Any)], 1);
    (* Error: (.+) *)
    (seqs [lit "Error: "; Grp 1 (Plus Any)], 1);
    (* ERROR:? (.+) *)
    (seqs [lit "ERROR"; Opt (lit ":"); lit " "; Grp 1 (Plus Any)], 1);
    (* Fatal: (.+) *)
    (seqs [lit "Fatal: "; Grp 1 (Plus Any)], 1);
    (* Exception: (.+) *)
    (seqs [lit "Exception: "; Grp 1 (Plus Any)], 1);
    (* Traceback.* *)
    (seqs [lit "Traceback"; Star Any], 0);
    (* FAIL(?:ED)?:? (.+) *)
    (seqs [lit "FAIL"; Opt (lit "ED"); Opt (lit ":"); lit " ";
           Grp 1 (Plus Any)], 1) ]%nat.

Definition DQUOTE : char := 34%N.
Definition SQUOTE : char := 39%N.

(** A path with an extension between two [q] quotes:
    [q([^q]+\.[a-zA-Z]{1,10})q]. *)
Definition quoted_path (q : char) : regex :=
  seqs [Lit q;
        Grp 1 (seqs [Plus (Cls true [CChar q]); lit "."; Rep 1 10 (Cls false letters)]);
        Lit q].

Definition file_patterns : list regex :=
  [ (* ([a-zA-Z0-9_\-./]+\.[a-zA-Z]{1,10})(?::\d+)?   file.ext:line *)
    seqs [Grp 1 (seqs [Plus (Cls false (letters ++
                               [CRange (ch "0") (ch "9"); CChar (ch "_");
                                CChar (ch "-"); CChar (ch "."); CChar (ch "/")]));
                       lit "."; Rep 1 10 (Cls false letters)]);
          Opt (seqs [lit ":"; Plus Digit])];
    quoted_path DQUOTE;
    quoted_path SQUOTE ].

Fixpoint first_some {A B} (f : A -> option B) (l : list A) : option B :=
  match l with
  | [] => None
  | a :: l' =>
    match f a with
    | Some b => Some b
    | None => first_some f l'
    end
  end.

(** The deduplication loop of [extract_file_context]: [seen] is the set of
    tokens already kept. *)
Fixpoint dedupe (seen : gset str) (files : list str) : list str :=
  match files with
  | [] => []
  | f :: files' =>
    if bool_decide (f ∈ seen) then dedupe seen files'
    else f :: dedupe ({[ f ]} ∪ seen) files'
  end.

Section Filter.
Variable T : tables.
Variable F : EventFilter.

Definition classify (event : CommandResult) : EventType :=
  (* Always capture errors *)
  if negb (exit_code event =? 0)%Z then ERROR else
  match split_ws (strip (command event)) with
  | [] => NOISE
  | first :: _ =>
    let base_cmd := lower T first in
    if bool_decide (base_cmd ∈ IGNORE_COMMANDS F) then NOISE else
    let cmd_lower := lower T (command event) in
    if existsb (fun p => contains p cmd_lower) (elements (ALWAYS_CAPTURE F))
    then SUCCESS else
    let combined_output := stdout event ++ [NL] ++ stderr event in
    match List.find (fun p => bool_decide (is_Some (search T true (ast p) combined_output)))
                    (SIGNIFICANT_PATTERNS F) with
    | Some p =>
      if existsb (fun w => contains w (lower T (src p))) error_words
      then ERROR else SUCCESS
    | None =>
      if existsb (fun r => bool_decide (is_Some (search T false r (command event))))
                 decision_patterns
      then DECISION else NOISE
    end
  end.

Definition is_significant (event : CommandResult) : bool :=
  negb (EventType_eqb (classify event) NOISE).

Definition exit_code_text (event : CommandResult) : str :=
  u "Exit code " ++ str_of_Z (exit_code event).

(** First line (for the first pattern that matches any line) and what is
    returned for it. *)
Definition summary_of_line (rg : regex * nat) (line : str) : option str :=
  match search T false (fst rg) line with
  | Some m =>
    if (0 <? snd rg)%nat then Some (strip (default [] (m_group (snd rg) m)))
    else Some (strip line)
  | None => None
  end.

Definition first_long_line (line : str) : option str :=
  let line := strip line in
  if negb (str_eqb line []) && (5 <? length line)%nat
  then Some (take 200 line) else None.

Definition extract_error_summary (event : CommandResult) : str :=
  let output :=
    if negb (str_eqb (stderr event) []) then stderr event else stdout event in
  if str_eqb output [] then exit_code_text event else
  let lines := split_lines (strip output) in
  match first_some (fun rg => first_some (summary_of_line rg) lines)
                   priority_patterns with
  | Some s => s
  | None =>
    match first_some first_long_line lines with
    | Some s => s
    | None => exit_code_text event
    end
  end.

(** The test [not match.startswith('http') and '/' in match or '.' in
    match]; [and] binds tighter than [or]. *)
Definition looks_like_file (m : str) : bool :=
  (negb (starts_with (u "http") m) && has_char (ch "/") m)
  || has_char (ch ".") m.

Definition candidate_files (combined : str) : list str :=
  flat_map
    (fun r =>
       List.filter (fun m => looks_like_file m && (length m <? 200)%nat)
              (findall1 T false r combined))
    file_patterns.

Definition extract_file_context (event : CommandResult) : list str :=
  let combined :=
    command event ++ [NL] ++ stderr event ++ [NL] ++ stdout event in
  take 10 (dedupe ∅ (candidate_files combined)).

End Filter.

(* ===================================================================== *)
(** * Effects: the handoff file, the clock, exceptions                    *)
(* ===================================================================== *)

(** What a call can raise: an instance of [Exception], or one of the other
    [BaseException]s ([KeyboardInterrupt], [SystemExit], ...), which
    [except Exception] lets through. *)
Inductive exn :=
| Exception (name : string)
| BaseException (name : string).

Inductive outcome (A : Type) :=
| Ok (a : A)
| Raise (e : exn).
Arguments Ok {A} a.
Arguments Raise {A} e.

(** A computation over a state [W] that returns or raises. *)
Definition M (W A : Type) : Type := W -> outcome A * W.

Definition ret {W A} (a : A) : M W A := fun w => (Ok a, w).

Definition bind {W A B} (c : M W A) (k : A -> M W B) : M W B :=
  fun w =>
    match c w with
    | (Ok a, w') => k a w'
    | (Raise e, w') => (Raise e, w')
    end.

Definition raise {W A} (e : exn) : M W A := fun w => (Raise e, w).

Notation "'let*' x ':=' c 'in' k" := (bind c (fun x => k))
  (at level 10, x name, c at level 100, k at level 200).

(** The part of the machine the updater touches: the file at
    [handoff_path] (absent, or its text) and the clock, whose successive
    readings are [clock 0], [clock 1], ... *)
Record world := {
  file : option str;
  clock : nat -> datetime;
  reads : nat;
}.

(** [datetime.now()] *)
Definition now : M world datetime :=
  fun w => (Ok (clock w (reads w)),
            {| file := file w; clock := clock w; reads := S (reads w) |}).

(** [self.handoff_path.exists()] *)
Definition path_exists : M world bool :=
  fun w => (Ok (bool_decide (is_Some (file w))), w).

(** [open(path, 'r').read()] *)
Definition read_file : M world str :=
  fun w =>
    match file w with
    | Some c => (Ok c, w)
    | None => (Raise (Exception "FileNotFoundError"), w)
    end.

Definition set_file (c : str) (w : world) : world :=
  {| file := Some c; clock := clock w; reads := reads w |}.

(** [open(path, 'w').write(c)] *)
Definition write_file (c : str) : M world unit :=
  fun w => (Ok tt, set_file c w).

(** [open(path, 'a').write(c)] *)
Definition append_file (c : str) : M world unit :=
  fun w => (Ok tt, set_file (default [] (file w) ++ c) w).

(* ===================================================================== *)
(** * [updater.py]: the handoff updater                                   *)
(* ===================================================================== *)

(** A line of text followed by its newline. *)
Definition ln (s : string) : str := u s ++ [NL].
Arguments ln s%_string.

(** Section markers in HANDOFF.md *)
Definition SECTIONS : gmap str str :=
  list_to_map
    [ (u "error", u "## LOST CONTEXT INSURANCE / Debugging History");
      (u "success", u "## COMPLETED THIS SESSION");
      (u "decision", u "## LOST CONTEXT INSURANCE / Decision Log");
      (u "heartbeat", u "## SESSION METADATA") ].

Definition template (created updated : str) : str :=
  ln "# Project Handoff Document" ++
  ln "" ++
  u "**Created:** " ++ created ++ [NL] ++
  u "**Updated:** " ++ updated ++ [NL] ++
  ln "**Status:** Active" ++
  ln "" ++
  ln "---" ++
  ln "" ++
  ln "## SESSION METADATA" ++
  ln "" ++
  ln "*Auto-populated by Terminal Shadow*" ++
  ln "" ++
  ln "---" ++
  ln "" ++
  ln "## COMPLETED THIS SESSION" ++
  ln "" ++
  ln "*Significant completions logged here*" ++
  ln "" ++
  ln "---" ++
  ln "" ++
  ln "## LOST CONTEXT INSURANCE / Debugging History" ++
  ln "" ++
  ln "*Errors and resolutions logged here*" ++
  ln "" ++
  ln "---" ++
  ln "" ++
  ln "## LOST CONTEXT INSURANCE / Decision Log" ++
  ln "" ++
  ln "*Key decisions and rationale logged here*" ++
  ln "" ++
  ln "---" ++
  ln "" ++
  ln "## PREVIOUSLY COMPLETED" ++
  ln "" ++
  ln "*Historical completions*" ++
  ln "" ++
  ln "---" ++
  ln "" ++
  ln "*This document is maintained by Terminal Shadow for context continuity.*".

Definition _create_template : M world unit :=
  let* created := now in
  let* updated := now in
  write_file (template (fmt_date created) (fmt_minutes_utc updated)).

Definition _ensure_file_exists : M world unit :=
  let* present := path_exists in
  if negb present then _create_template else ret tt.

(** [_truncate(text, max_length)] *)
Definition _truncate (text : str) (max_length : Z) : str :=
  if str_eqb text [] then [] else
  let text := strip text in
  if (Z.of_nat (length text) <=? max_length)%Z then text
  else slice_to max_length text
         ++ [NL] ++ u "... (truncated, " ++ str_of_nat (length text)
         ++ u " total chars)".

(** The [- `f`] lines for [files[:5]]. *)
Definition file_lines (files : list str) : str :=
  concat (map (fun f => u "- `" ++ f ++ u "`" ++ [NL]) (take 5 files)).

Definition nonempty {A} (o : option (list A)) : bool :=
  match o with
  | Some (_ :: _) => true
  | _ => false
  end.

Definition _format_error_entry (event : CommandResult)
    (error_summary : option str) (files : option (list str)) : str :=
  let timestamp := fmt_seconds (timestamp event) in
  let stderr_truncated := _truncate (stderr event) 800 in
  let stdout_truncated := _truncate (stdout event) 400 in
  let summary :=
    if nonempty error_summary then default [] error_summary
    else u "Exit code " ++ str_of_Z (exit_code event) in
  let entry :=
    ln "" ++
    u "### ⚠ Error: " ++ take 100 summary ++ [NL] ++
    ln "" ++
    u "**Timestamp:** " ++ timestamp ++ [NL] ++
    ln "" ++
    ln "**Command:**" ++
    ln "```bash" ++
    command event ++ [NL] ++
    ln "```" ++
    ln "" ++
    u "**Working Directory:** `" ++ working_dir event ++ ln "`" ++
    ln "" ++
    u "**Exit Code:** " ++ str_of_Z (exit_code event) ++ [NL] ++
    ln "" ++
    ln "**Stderr:**" ++
    ln "```" ++
    stderr_truncated ++ [NL] ++
    ln "```" in
  let entry :=
    if negb (str_eqb (stdout event) [])
       && (0 <? length (strip (stdout event)))%nat
    then entry ++
         ln "" ++
         ln "**Stdout (relevant):**" ++
         ln "```" ++
         stdout_truncated ++ [NL] ++
         ln "```"
    else entry in
  let entry :=
    if nonempty files
    then entry ++ ln "" ++ ln "**Files Involved:**"
               ++ file_lines (default [] files)
    else entry in
  entry ++
  ln "" ++
  ln "**Hypothesis:** [To be filled after investigation]" ++
  ln "" ++
  ln "**Resolution:** [To be filled after fix]" ++
  ln "" ++
  ln "---".

(** [event.command.split()[0]] raises [IndexError] on a command of
    whitespace only. *)
Definition _format_success_entry (event : CommandResult)
    (files : option (list str)) : outcome str :=
  let timestamp := fmt_seconds (timestamp event) in
  let cmd_short :=
    if negb (str_eqb (command event) [])
    then match split_ws (command event) with
         | w :: _ => Ok w
         | [] => Raise (Exception "IndexError")
         end
    else Ok (u "Command") in
  match cmd_short with
  | Raise e => Raise e
  | Ok cmd_short =>
    let title :=
      if (50 <? length (command event))%nat
      then cmd_short ++ u " (long command)"
      else take 80 (command event) in
    let output_truncated := _truncate (stdout event) 500 in
    let entry :=
      ln "" ++
      u "### ✓ " ++ title ++ [NL] ++
      ln "" ++
      u "**Timestamp:** " ++ timestamp ++ [NL] ++
      ln "" ++
      u "**Duration:** " ++ str_of_Z (duration_ms event) ++ ln "ms" ++
      ln "" ++
      ln "**Command:**" ++
      ln "```bash" ++
      take 200 (command event) ++ [NL] ++
      ln "```" in
    let entry :=
      if negb (str_eqb (strip output_truncated) [])
      then entry ++
           ln "" ++
           ln "**Output:**" ++
           ln "```" ++
           output_truncated ++ [NL] ++
           ln "```"
      else entry in
    let entry :=
      if nonempty files
      then entry ++ ln "" ++ ln "**Files Affected:**"
                 ++ file_lines (default [] files)
      else entry in
    Ok (entry ++ ln "" ++ ln "---")
  end.

Definition _format_decision_entry (event : CommandResult) : str :=
  let timestamp := fmt_seconds (timestamp event) in
  ln "" ++
  u "### Decision: " ++ take 80 (command event) ++ [NL] ++
  ln "" ++
  u "**Timestamp:** " ++ timestamp ++ [NL] ++
  ln "" ++
  ln "**Command:**" ++
  ln "```bash" ++
  command event ++ [NL] ++
  ln "```" ++
  ln "" ++
  ln "**Context:** [Why this command was run]" ++
  ln "" ++
  u "**Outcome:** " ++ str_of_Z (exit_code event) ++ ln " (0 = success)" ++
  ln "" ++
  ln "**Rationale:** [To be filled - why this approach was chosen]" ++
  ln "" ++
  ln "---".

(** Values found in a statistics dictionary. *)
Inductive pyval :=
| VNone
| VInt (n : Z)
| VStr (s : str).

(** [str(v)], as an f-string renders it. *)
Definition py_str (v : pyval) : str :=
  match v with
  | VNone => u "None"
  | VInt n => str_of_Z n
  | VStr s => s
  end.

(** [d.get(key, dflt)] *)
Definition dict_get (d : gmap str pyval) (key : string) (dflt : pyval)
  : pyval :=
  default dflt (d !! u key).
Arguments dict_get d key%_string dflt.

(** [v[:100]]: only text can be sliced. *)
Definition py_slice100 (v : pyval) : outcome str :=
  match v with
  | VStr s => Ok (take 100 s)
  | _ => Raise (Exception "TypeError")
  end.

(** Index after the first line that contains the marker. *)
Fixpoint find_marker (marker : str) (i : nat) (lines : list str)
  : option nat :=
  match lines with
  | [] => None
  | line :: lines' =>
    if contains marker line then Some (i + 1)
    else find_marker marker (S i) lines'
  end.

(** The loop [for i in range(insert_idx, len(lines))] over the lines from
    index [i] on: the first [i > insert_idx] whose line starts a section. *)
Fixpoint find_next_section (insert_idx i : nat) (lines : list str)
  : option nat :=
  match lines with
  | [] => None
  | line :: lines' =>
    if starts_with (u "## ") line && (insert_idx <? i)
    then Some i
    else find_next_section insert_idx (S i) lines'
  end.

(** [lines.insert(i, x)] *)
Definition list_insert_at {A} (i : nat) (x : A) (l : list A) : list A :=
  take i l ++ x :: drop i l.

(** What [_insert_entry] writes when the marker is found: the new text of
    the file.  [None] when the fallback applies. *)
Definition insert_in_section (section_marker entry content : str)
  : option str :=
  let lines := split_lines content in
  match find_marker section_marker 0 lines with
  | Some insert_idx =>
    let insert_idx :=
      match find_next_section insert_idx insert_idx (drop insert_idx lines) with
      | Some i => i
      | None => length lines
      end in
    Some (join [NL] (list_insert_at insert_idx entry lines))
  | None => None
  end.

Definition _insert_entry (section_type entry : str) : M world unit :=
  let* present := path_exists in
  let* _ := (if negb present then _ensure_file_exists else ret tt) in
  let* content := read_file in
  let section_marker := SECTIONS !! section_type in
  let fallback := append_file ([NL] ++ entry) in
  match section_marker with
  | Some marker =>
    if negb (str_eqb marker []) && contains marker content
    then match insert_in_section marker entry content with
         | Some new_content => write_file new_content
         | None => fallback
         end
    else fallback
  | None => fallback
  end.

(** [\*\*Updated:\*\* [^\n]+] *)
Definition updated_re : regex :=
  seqs [lit "**Updated:** "; Plus NotNL].

(** [### ⚠ Error: ([^\n]+)] *)
Definition error_title_re : regex :=
  seqs [lit "### ⚠ Error: "; Grp 1 (Plus NotNL)].

Section Updater.
Variable T : tables.

Definition _update_timestamp : M world unit :=
  let* present := path_exists in
  if negb present then ret tt else
  let* content := read_file in
  let* t := now in
  let new_timestamp := fmt_minutes_utc t in
  write_file (sub T false updated_re (u "**Updated:** " ++ new_timestamp) content).

Definition lift {W A} (o : outcome A) : M W A := fun w => (o, w).

Definition append_event (event : CommandResult) (event_type : EventType)
    (error_summary : option str) (files : option (list str))
  : M world unit :=
  match event_type with
  | ERROR =>
    let entry := _format_error_entry event error_summary files in
    let* _ := _insert_entry (u "error") entry in
    _update_timestamp
  | SUCCESS =>
    let* entry := lift (_format_success_entry event files) in
    let* _ := _insert_entry (u "success") entry in
    _update_timestamp
  | DECISION =>
    let entry := _format_decision_entry event in
    let* _ := _insert_entry (u "decision") entry in
    _update_timestamp
  | NOISE => ret tt
  end.

Definition heartbeat_entry (timestamp : str) (session_stats : gmap str pyval)
  : outcome str :=
  match py_slice100 (dict_get session_stats "last_command" (VStr (u "none"))) with
  | Raise e => Raise e
  | Ok last =>
    Ok (ln "" ++
        u "### [HEARTBEAT] " ++ timestamp ++ [NL] ++
        ln "" ++
        u "**Session Duration:** "
          ++ py_str (dict_get session_stats "duration" (VStr (u "unknown")))
          ++ [NL] ++
        u "**Commands Executed:** "
          ++ py_str (dict_get session_stats "command_count" (VInt 0))
          ++ [NL] ++
        u "**Last Command:** `" ++ last ++ ln "`" ++
        u "**Working Directory:** `"
          ++ py_str (dict_get session_stats "project_path" (VStr (u "unknown")))
          ++ ln "`" ++
        ln "" ++
        ln "**Status:** Session active. Continuing work." ++
        ln "" ++
        ln "---")
  end.

Definition append_heartbeat (session_stats : gmap str pyval) : M world unit :=
  let* t := now in
  let* entry := lift (heartbeat_entry (fmt_minutes_utc t) session_stats) in
  _insert_entry (u "heartbeat") entry.

(** [get_recent_errors(count)] *)
Definition recent_errors_of (content : str) (count : Z) : list str :=
  let error_section :=
    split (u "## LOST CONTEXT INSURANCE / Debugging History") content in
  match error_section with
  | _ :: after_marker :: _ =>
    let error_content := default [] (head (split (u "##") after_marker)) in
    let errors := findall1 T false error_title_re error_content in
    slice_to count errors
  | _ => []
  end.

Definition get_recent_errors (count : Z) : M world (list str) :=
  let* present := path_exists in
  if negb present then ret [] else
  let* content := read_file in
  ret (recent_errors_of content count).

End Updater.

(* ===================================================================== *)
(** * [heartbeat.py]: the heartbeat service                               *)
(* ===================================================================== *)

(** Calendar arithmetic of [datetime]: the proleptic Gregorian ordinal of
    a date and the microseconds of a naive timestamp, from which the
    difference of two timestamps is taken. *)
Definition is_leap (y : Z) : bool :=
  ((y mod 4 =? 0) && (negb (y mod 100 =? 0) || (y mod 400 =? 0)))%Z.

Definition days_before_year (y : Z) : Z :=
  (let y := y - 1 in y * 365 + y / 4 - y / 100 + y / 400)%Z.

Definition days_before_month (y m : Z) : Z :=
  (nth (Z.to_nat (m - 1))
       [0; 31; 59; 90; 120; 151; 181; 212; 243; 273; 304; 334] 0
   + if (2 <? m) && is_leap y then 1 else 0)%Z.

Definition toordinal (t : datetime) : Z :=
  (days_before_year (Z.of_N (year t))
   + days_before_month (Z.of_N (year t)) (Z.of_N (month t))
   + Z.of_N (day t))%Z.

Definition micros (t : datetime) : Z :=
  ((((toordinal t * 24 + Z.of_N (hour t)) * 60 + Z.of_N (minute t)) * 60
    + Z.of_N (second t)) * 1000000 + Z.of_N (microsecond t))%Z.

(** [int((a - b).total_seconds())]: [int] rounds towards zero. *)
Definition whole_seconds_between (a b : datetime) : Z :=
  (Z.quot (micros a - micros b) 1000000)%Z.

(** Zero-padded decimal of at least [width] digits. *)
Definition padn (width : nat) (n : N) : str :=
  let d := digits n in
  repeat (ch "0") (width - length d) ++ d.

(** [datetime.isoformat()] *)
Definition isoformat (t : datetime) : str :=
  padn 4 (year t) ++ u "-" ++ pad2 (month t) ++ u "-" ++ pad2 (day t)
    ++ u "T" ++ pad2 (hour t) ++ u ":" ++ pad2 (minute t) ++ u ":"
    ++ pad2 (second t)
    ++ (if (microsecond t =? 0)%N then []
        else u "." ++ padn 6 (microsecond t)).

Section Heartbeat.
(** The state the two callbacks and the clock act on. *)
Variable E : Type.
(** [datetime.now()], a reading of the clock kept in [E]. *)
Variable clock_now : E -> datetime * E.

Record HeartbeatService := {
  interval : Z;
  get_stats : option (M E (gmap str pyval));
  on_heartbeat : option (gmap str pyval -> M E unit);
  _running : bool;
  _thread : bool;
  _session_start : datetime;
  _heartbeat_count : Z;
}.

(** [__init__] *)
Definition new_service (interval_minutes : Z)
    (get_stats : option (M E (gmap str pyval)))
    (on_heartbeat : option (gmap str pyval -> M E unit))
  : M E HeartbeatService :=
  let* t := (fun e => (Ok (clock_now e).1, (clock_now e).2)) in
  ret {| interval := interval_minutes * 60;
         get_stats := get_stats;
         on_heartbeat := on_heartbeat;
         _running := false;
         _thread := false;
         _session_start := t;
         _heartbeat_count := 0 |}.

(** Methods run over the service's own fields together with [E]. *)
Definition HB (A : Type) : Type := M (HeartbeatService * E) A.

Definition env {A} (c : M E A) : HB A :=
  fun s =>
    match c (snd s) with
    | (r, e') => (r, (fst s, e'))
    end.

Definition self : HB HeartbeatService := fun s => (Ok (fst s), s).

Definition hb_now : HB datetime :=
  fun s => (Ok (clock_now (snd s)).1, (fst s, (clock_now (snd s)).2)).

Definition set_self (hb : HeartbeatService) : HB unit :=
  fun s => (Ok tt, (hb, snd s)).

(** [try: c  except Exception: pass] *)
Definition try_pass (c : HB unit) : HB unit :=
  fun s =>
    match c s with
    | (Raise (Exception _), s') => (Ok tt, s')
    | r => r
    end.

(** The text [_get_duration] prints for a number of whole seconds. *)
Definition format_duration (total : Z) : str :=
  let hours := (total / 3600)%Z in
  let remainder := (total mod 3600)%Z in
  let minutes := (remainder / 60)%Z in
  let seconds := (remainder mod 60)%Z in
  if (0 <? hours)%Z
  then str_of_Z hours ++ u "h " ++ str_of_Z minutes ++ u "m"
  else if (0 <? minutes)%Z
  then str_of_Z minutes ++ u "m " ++ str_of_Z seconds ++ u "s"
  else str_of_Z seconds ++ u "s".

Definition _get_duration : HB str :=
  let* hb := self in
  let* t := hb_now in
  ret (format_duration (whole_seconds_between t (_session_start hb))).

(** The dictionary [_emit_heartbeat] builds before it asks the provider. *)
Definition base_stats (timestamp session_start duration : str)
    (heartbeat_count : Z) : gmap str pyval :=
  list_to_map
    [ (u "timestamp", VStr timestamp);
      (u "session_start", VStr session_start);
      (u "duration", VStr duration);
      (u "heartbeat_count", VInt heartbeat_count) ].

(** [stats.update(additional)] *)
Definition dict_update (stats additional : gmap str pyval)
  : gmap str pyval :=
  additional ∪ stats.

(** The two guarded calls of [_emit_heartbeat], on the dictionary built so
    far.  The dictionary is a local variable: when the provider raises, it
    is left as it was. *)
Definition call_provider (hb : HeartbeatService) (stats : gmap str pyval)
  : HB (gmap str pyval) :=
  match get_stats hb with
  | Some provider =>
    fun s =>
      match env provider s with
      | (Ok additional_stats, s') => (Ok (dict_update stats additional_stats), s')
      | (Raise (Exception _), s') => (Ok stats, s')
      | (Raise e, s') => (Raise e, s')
      end
  | None => ret stats
  end.

Definition call_sink (hb : HeartbeatService) (stats : gmap str pyval)
  : HB unit :=
  match on_heartbeat hb with
  | Some sink => try_pass (env (sink stats))
  | None => ret tt
  end.

(** [self._heartbeat_count += 1] *)
Definition incr_count (hb : HeartbeatService) : HeartbeatService :=
  {| interval := interval hb;
     get_stats := get_stats hb;
     on_heartbeat := on_heartbeat hb;
     _running := _running hb;
     _thread := _thread hb;
     _session_start := _session_start hb;
     _heartbeat_count := _heartbeat_count hb + 1 |}.

Definition _emit_heartbeat : HB unit :=
  let* hb := self in
  let hb := incr_count hb in
  let* _ := set_self hb in
  let* t := hb_now in
  let* duration := _get_duration in
  let stats :=
    base_stats (isoformat t) (isoformat (_session_start hb)) duration
               (_heartbeat_count hb) in
  let* stats := call_provider hb stats in
  call_sink hb stats.

(** [emit_now] *)
Definition emit_now : HB unit := _emit_heartbeat.

(** [start]: the background thread is represented by the [_thread] flag;
    what the thread runs is [_run_loop] below. *)
Definition with_running (b : bool) (hb : HeartbeatService)
  : HeartbeatService :=
  {| interval := interval hb;
     get_stats := get_stats hb;
     on_heartbeat := on_heartbeat hb;
     _running := b;
     _thread := _thread hb;
     _session_start := _session_start hb;
     _heartbeat_count := _heartbeat_count hb |}.

Definition start : HB unit :=
  let* hb := self in
  if _running hb then ret tt else
  let* t := hb_now in
  set_self {| interval := interval hb;
              get_stats := get_stats hb;
              on_heartbeat := on_heartbeat hb;
              _running := true;
              _thread := true;
              _session_start := t;
              _heartbeat_count := _heartbeat_count hb |}.

(** [stop]; the bounded [join] of the thread changes no field. *)
Definition stop : HB unit :=
  let* hb := self in
  set_self (with_running false hb).

(** [_run_loop], for at most [n] passes of its [while]: after each sleep
    the tick is emitted if the service is still running. *)
Fixpoint _run_loop (n : nat) : HB unit :=
  match n with
  | O => ret tt
  | S n' =>
    let* hb := self in
    if _running hb
    then (* time.sleep(self.interval) *)
         let* hb := self in
         let* _ := (if _running hb then _emit_heartbeat else ret tt) in
         _run_loop n'
    else ret tt
  end.

(** The snapshot a tick builds from the service [hb] and the state [e]
    before it turns to the provider, and the state once the clock has been
    read for it (once for the timestamp, once for the duration). *)
Definition base_snapshot (hb : HeartbeatService) (e : E) : gmap str pyval :=
  let t := (clock_now e).1 in
  let t' := (clock_now (clock_now e).2).1 in
  base_stats (isoformat t) (isoformat (_session_start hb))
             (format_duration (whole_seconds_between t' (_session_start hb)))
             (_heartbeat_count hb + 1).

Definition after_clock (e : E) : E := (clock_now (clock_now e).2).2.

(** An outcome that [except Exception] does not stop. *)
Definition escapes {A} (r : outcome A) : bool :=
  match r with
  | Raise (BaseException _) => true
  | _ => false
  end.


End Heartbeat.

Arguments interval {E} _.
Arguments get_stats {E} _.
Arguments on_heartbeat {E} _.
Arguments _running {E} _.
Arguments _thread {E} _.
Arguments _session_start {E} _.
Arguments _heartbeat_count {E} _.
Arguments escapes {A} _.

(* ===================================================================== *)
(** * Sample inputs                                                       *)
(* ===================================================================== *)

Definition noon : datetime :=
  {| year := 2024; month := 3; day := 9;
     hour := 12; minute := 0; second := 0; microsecond := 0 |}.

Definition outcome_of (cmd out err : string) (code : Z) : CommandResult :=
  {| command := u cmd; stdout := u out; stderr := u err; exit_code := code;
     duration_ms := 40; working_dir := u "/srv/app"; timestamp := noon |}.

(** Scenario B of the specification, with the fields it leaves open. *)
Definition go_test_panic (out : str) (ms : Z) (dir : str) (t : datetime)
  : CommandResult :=
  {| command := u "go test ./...";
     stdout := out;
     stderr := u "panic: index out of range [3] with length 2";
     exit_code := 1;
     duration_ms := ms; working_dir := dir; timestamp := t |}.

(** A failed configuration test of a web server. *)
Definition apachectl_failure : CommandResult :=
  outcome_of "apachectl -t -f httpd.conf" "" "Syntax error" 1.

(** A small state for the callbacks: the snapshots the sink has been
    handed, newest first.  The clock always reads [noon]. *)
Definition sink_log : Type := list (gmap str pyval).

Definition fixed_clock (e : sink_log) : datetime * sink_log := (noon, e).

Definition stats_ok : M sink_log (gmap str pyval) :=
  fun e => (Ok {[ u "command_count" := VInt 7 ]}, e).


Definition sink_ok (stats : gmap str pyval) : M sink_log unit :=
  fun e => (Ok tt, stats :: e).


Definition idle_service (p : option (M sink_log (gmap str pyval)))
    (k : option (gmap str pyval -> M sink_log unit))
  : HeartbeatService sink_log :=
  {| interval := 300; get_stats := p; on_heartbeat := k;
     _running := false; _thread := false;
     _session_start := noon; _heartbeat_count := 4 |}.





(** The template as written on 2024-03-09 at noon, and a world holding it. *)
Definition noon_template : str :=
  template (fmt_date noon) (fmt_minutes_utc noon).

Definition world_with (content : str) : world :=
  {| file := Some content; clock := fun _ => noon; reads := 0 |}.


Definition first_failure : CommandResult :=
  outcome_of "make" "" "Error: first" 2.




(** ** Reading the patterns of the updater

    What [updated_re] and [error_title_re] match, said without the
    matcher. *)

(** The fixed text that opens the "Updated" field. *)
Definition UPDATED : str := u "**Updated:** ".

Definition not_nl (c : char) : bool := negb (c =? NL)%N.

(** The text up to the first newline. *)
Fixpoint line_head (s : str) : str :=
  match s with
  | [] => []
  | c :: s' => if not_nl c then c :: line_head s' else []
  end.

(** [s] begins with [m] followed by a character that is not a newline. *)
Fixpoint lit_then_char (m s : str) : bool :=
  match m, s with
  | [], c :: _ => not_nl c
  | x :: m', c :: s' => (x =? c)%N && lit_then_char m' s'
  | _, [] => false
  end.

(** The length of the "Updated" field that begins [s], if one does. *)
Definition updated_field_len (s : str) : option nat :=
  if lit_then_char UPDATED s
  then Some (length UPDATED + length (line_head (drop (length UPDATED) s)))
  else None.

(** Some "Updated" field begins somewhere in [s]. *)
Fixpoint has_updated_field (s : str) : bool :=
  lit_then_char UPDATED s ||
  match s with
  | [] => false
  | _ :: s' => has_updated_field s'
  end.

(** The position reached by reading the literal [l]. *)
Fixpoint after_lits (l : str) (p : pos) : pos :=
  match l with
  | [] => p
  | c :: l' =>
    after_lits l' {| before := Some c; rest := tail (rest p); caps := caps p |}
  end.

(** The position reached by reading on while [ok] holds. *)
Fixpoint after_run (ok : char -> bool) (s : str) (prev : option char)
    (cs : list (nat * str)) : pos :=
  match s with
  | c :: s' =>
    if ok c then after_run ok s' (Some c) cs
    else {| before := prev; rest := s; caps := cs |}
  | [] => {| before := prev; rest := []; caps := cs |}
  end.

(** The text [_insert_entry] leaves in a file that held [content]. *)
Definition text_after_insert (section_type entry content : str) : str :=
  let appended := content ++ [NL] ++ entry in
  match SECTIONS !! section_type with
  | Some marker =>
    if negb (str_eqb marker []) && contains marker content
    then default appended (insert_in_section marker entry content)
    else appended
  | None => appended
  end.

(** Half past one on the same day, a world whose clock reads it, and the
    statistics of a session. *)
Definition half_past_one : datetime :=
  {| year := 2024; month := 3; day := 9;
     hour := 13; minute := 30; second := 0; microsecond := 0 |}.

Definition world_at (content : str) (t : datetime) : world :=
  {| file := Some content; clock := fun _ => t; reads := 0 |}.

Definition session_stats_7 : gmap str pyval :=
  list_to_map
    [ (u "duration", VStr (u "12m"));
      (u "command_count", VInt 7);
      (u "last_command", VStr (u "make test"));
      (u "project_path", VStr (u "/srv/app")) ].

(* ===================================================================== *)
(** * [wrapper.py]: the terminal shadow                                   *)
(* ===================================================================== *)

(** [CommandResult.success] and [CommandResult.has_error_output] *)
Definition success (r : CommandResult) : bool := (exit_code r =? 0)%Z.

Definition has_error_output (r : CommandResult) : bool :=
  (0 <? length (strip (stderr r)))%nat.

(** How [subprocess.run] ended: it returned, the timeout expired, or it
    raised some other exception, whose text is [message]. *)
Inductive run_outcome :=
| Completed (out err : str) (returncode : Z)
| TimeoutExpired
| RunFailed (message : str).

(** The fields [TerminalShadow.execute] works with. *)
Record TerminalShadow := {
  project_path : str;
  _command_count : Z;
  shadow_session_start : datetime;
  _last_command : option CommandResult;
}.

(** The error text [execute] records for a command that ran into its
    timeout. *)
Definition timeout_text (timeout : Z) : str :=
  u "Command timed out after " ++ str_of_Z timeout ++ u "s".

(** The [CommandResult] that [execute] builds in each of its three
    branches; [t] is the time its [timestamp] field defaults to. *)
Definition command_result (command : str) (timeout : Z) (working_dir : str)
    (run : run_outcome) (duration_ms : Z) (t : datetime) : CommandResult :=
  match run with
  | Completed out err returncode =>
    {| command := command; stdout := out; stderr := err;
       exit_code := returncode; duration_ms := duration_ms;
       working_dir := working_dir; timestamp := t |}
  | TimeoutExpired =>
    {| command := command; stdout := [];
       stderr := timeout_text timeout;
       exit_code := -1; duration_ms := duration_ms;
       working_dir := working_dir; timestamp := t |}
  | RunFailed message =>
    {| command := command; stdout := []; stderr := message;
       exit_code := -1; duration_ms := duration_ms;
       working_dir := working_dir; timestamp := t |}
  end.

(** [x or y] on an optional text: [None] and the empty text are false. *)
Definition str_or (x : option str) (y : str) : str :=
  match x with
  | Some (c :: s) => c :: s
  | _ => y
  end.

(** What a session works on: the shadow's counters and the handoff file
    with the clock. *)
Definition session_state : Type := TerminalShadow * world.

Definition on_world {A} (c : M world A) : M session_state A :=
  fun s =>
    match c (snd s) with
    | (r, w') => (r, (fst s, w'))
    end.

(** [TerminalShadow.execute]: the process has run and ended as [run] after
    [duration_ms] milliseconds; the result is built and counted. *)
Definition shadow_execute (command : str) (timeout : Z) (cwd : option str)
    (run : run_outcome) (duration_ms : Z) : M session_state CommandResult :=
  fun s =>
    let sh := fst s in
    let working_dir := str_or cwd (project_path sh) in
    match on_world now s with
    | (Ok t, (_, w')) =>
      let cmd_result :=
        command_result command timeout working_dir run duration_ms t in
      (Ok cmd_result,
       ({| project_path := project_path sh;
           _command_count := _command_count sh + 1;
           shadow_session_start := shadow_session_start sh;
           _last_command := Some cmd_result |}, w'))
    | (Raise e, s') => (Raise e, s')
    end.

(** The text of [session_duration] for a number of whole seconds. *)
Definition format_hms (total : Z) : str :=
  let hours := (total / 3600)%Z in
  let remainder := (total mod 3600)%Z in
  let minutes := (remainder / 60)%Z in
  let seconds := (remainder mod 60)%Z in
  str_of_Z hours ++ u "h " ++ str_of_Z minutes ++ u "m "
    ++ str_of_Z seconds ++ u "s".

(** [TerminalShadow.session_duration] *)
Definition session_duration : M session_state str :=
  fun s =>
    match on_world now s with
    | (Ok t, s') =>
      (Ok (format_hms
             (whole_seconds_between t (shadow_session_start (fst s)))), s')
    | (Raise e, s') => (Raise e, s')
    end.

(** [TerminalShadow.get_session_stats] *)
Definition get_session_stats : M session_state (gmap str pyval) :=
  let* duration := session_duration in
  fun s =>
    let sh := fst s in
    (Ok (list_to_map
           [ (u "session_start", VStr (isoformat (shadow_session_start sh)));
             (u "duration", VStr duration);
             (u "command_count", VInt (_command_count sh));
             (u "last_command",
              match _last_command sh with
              | Some r => VStr (command r)
              | None => VNone
              end);
             (u "project_path", VStr (project_path sh)) ]), s).

(* ===================================================================== *)
(** * [shadow.py]: the session                                            *)
(* ===================================================================== *)

(** The context [ShadowSession.execute] and [log_command] extract for an
    event of a given kind: the error summary and the files. *)
Definition event_context (T : tables) (event_type : EventType)
    (result : CommandResult) : option str * option (list str) :=
  match event_type with
  | ERROR => (Some (extract_error_summary T result),
              Some (extract_file_context T result))
  | SUCCESS => (None, Some (extract_file_context T result))
  | _ => (None, None)
  end.

Section Session.
Variable T : tables.
(** The state the [on_event] callback acts on. *)
Variable X : Type.

Definition with_callback {A} (c : M session_state A)
  : M (session_state * X) A :=
  fun s =>
    match c (fst s) with
    | (r, e') => (r, (e', snd s))
    end.

Definition callback (c : M X unit) : M (session_state * X) unit :=
  fun s =>
    match c (snd s) with
    | (r, x') => (r, (fst s, x'))
    end.

(** [ShadowSession.execute], with the filter [EventFilter()] of the
    session. *)
Definition session_execute
    (on_event : option (CommandResult -> EventType -> M X unit))
    (command : str) (timeout : Z) (cwd : option str) (force_log : bool)
    (run : run_outcome) (duration_ms : Z)
  : M (session_state * X) CommandResult :=
  let* result :=
    with_callback (shadow_execute command timeout cwd run duration_ms) in
  let event_type := classify T default_filter result in
  let* _ :=
    (if force_log || negb (EventType_eqb event_type NOISE)
     then
       let ctx := event_context T event_type result in
       let* _ :=
         with_callback
           (on_world (append_event T result event_type (fst ctx) (snd ctx))) in
       match on_event with
       | Some f => callback (f result event_type)
       | None => ret tt
       end
     else ret tt) in
  ret result.

End Session.

(** The clock as the heartbeat service of a session reads it. *)
Definition session_clock (s : session_state) : datetime * session_state :=
  (clock (snd s) (reads (snd s)),
   (fst s,
    {| file := file (snd s); clock := clock (snd s);
       reads := S (reads (snd s)) |})).

(** The service [ShadowSession.start] builds: the provider is the
    shadow's [get_session_stats], the sink the updater's
    [append_heartbeat]. *)
Definition session_service (hb : HeartbeatService session_state) : Prop :=
  get_stats hb = Some get_session_stats
  ∧ on_heartbeat hb = Some (fun stats => on_world (append_heartbeat stats)).

(** [ShadowSession.start]: with the heartbeat enabled, a service is
    created and started. *)
Definition session_start (heartbeat_enabled : bool) (interval_minutes : Z)
  : M session_state (option (HeartbeatService session_state)) :=
  if heartbeat_enabled
  then
    let* hb :=
      new_service session_state session_clock interval_minutes
                  (Some get_session_stats)
                  (Some (fun stats => on_world (append_heartbeat stats))) in
    fun s =>
      match start session_state session_clock (hb, s) with
      | (Ok _, (hb', s')) => (Ok (Some hb'), s')
      | (Raise e, (_, s')) => (Raise e, s')
      end
  else ret None.

(* ===================================================================== *)
(** * [floyd_shadow_hook.py]: the hook                                    *)
(* ===================================================================== *)

(** The result object [log_command] creates from its arguments. *)
Definition hook_result (project_path command : str) (out err : option str)
    (code : Z) (duration : option Z) (dir : option str) (t : datetime)
  : CommandResult :=
  {| command := command;
     stdout := str_or out [];
     stderr := str_or err [];
     exit_code := code;
     duration_ms := default 0%Z duration;
     working_dir := str_or dir project_path;
     timestamp := t |}.

Section Hook.
Variable T : tables.

(** [log_command]: the result is put together from the arguments, with
    the time of the call; the updater is created (and with it the file)
    only when something may be logged. *)
Definition log_command (project_path : str) (force : bool) (command : str)
    (out err : option str) (code : Z) (duration : option Z)
    (dir : option str) : M world unit :=
  let* t := now in
  let result := hook_result project_path command out err code duration dir t in
  let event_type := classify T default_filter result in
  if negb (EventType_eqb event_type NOISE) || force
  then
    let* _ := _ensure_file_exists in
    let ctx := event_context T event_type result in
    append_event T result event_type (fst ctx) (snd ctx)
  else ret tt.

(** [check_significant]: the verdict on the command and exit code alone;
    [Some] kind is printed (exit status 0), [None] is exit status 1. *)
Definition check_significant (command : str) (code : Z) (t : datetime)
  : option EventType :=
  let result :=
    {| command := command; stdout := []; stderr := []; exit_code := code;
       duration_ms := 0; working_dir := []; timestamp := t |} in
  let event_type := classify T default_filter result in
  if negb (EventType_eqb event_type NOISE) then Some event_type else None.

(** [extract_error]: the summary of a text given as stderr. *)
Definition extract_error (err : option str) (t : datetime) : str :=
  extract_error_summary T
    {| command := []; stdout := []; stderr := str_or err []; exit_code := 1;
       duration_ms := 0; working_dir := []; timestamp := t |}.

End Hook.

(* ===================================================================== *)
(** * [config.py]: the configuration                                      *)
(* ===================================================================== *)

Module Config.

(** The values a configuration document holds under the keys of its
    sections: a scalar of YAML or JSON, or a list of texts. *)
Inductive cvalue :=
| CNull
| CBool (b : bool)
| CInt (n : Z)
| CStr (s : str)
| CList (items : list str).

(** What a document has under a top-level key: a mapping, or some other
    value. *)
Inductive node :=
| Mapping (entries : gmap str cvalue)
| Leaf (v : cvalue).

(** The dataclass; no field is type-checked when it is set. *)
Record ShadowConfig := {
  project_name : cvalue;
  project_path : cvalue;
  handoff_file : cvalue;
  ignore_commands : gset str;
  capture_all_errors : cvalue;
  capture_git_commits : cvalue;
  capture_build_commands : cvalue;
  heartbeat_enabled : cvalue;
  heartbeat_interval_minutes : cvalue;
  max_entry_length : cvalue;
  include_timestamps : cvalue;
  format : cvalue;
  llm_enabled : cvalue;
  llm_provider : cvalue;
  llm_model : cvalue;
  summarize_errors : cvalue;
}.

Definition text (s : string) : cvalue := CStr (u s).
Arguments text s%_string.

Definition default_ignore_commands : gset str :=
  set_of [ "ls"; "cd"; "pwd"; "clear"; "exit";
           "cat"; "head"; "tail"; "less"; "more";
           "echo"; "printf" ]%string.

(** [ShadowConfig()] *)
Definition defaults : ShadowConfig :=
  {| project_name := text "default";
     project_path := text ".";
     handoff_file := text "HANDOFF.md";
     ignore_commands := default_ignore_commands;
     capture_all_errors := CBool true;
     capture_git_commits := CBool true;
     capture_build_commands := CBool true;
     heartbeat_enabled := CBool true;
     heartbeat_interval_minutes := CInt 5;
     max_entry_length := CInt 2000;
     include_timestamps := CBool true;
     format := text "markdown";
     llm_enabled := CBool false;
     llm_provider := text "local";
     llm_model := text "";
     summarize_errors := CBool false |}.

(** [data[key]] for a key that may be missing, ready for [.get]: anything
    but a mapping has no [get]. *)
Definition section (data : gmap str node) (key : string)
  : outcome (option (gmap str cvalue)) :=
  match data !! u key with
  | None => Ok None
  | Some (Mapping entries) => Ok (Some entries)
  | Some (Leaf _) => Raise (Exception "AttributeError")
  end.
Arguments section data key%_string.

(** The value a field gets: [entries.get(key, dflt)] when the section is
    there, the default of the dataclass [absent] when it is not. *)
Definition field (sec : option (gmap str cvalue)) (key : string)
    (dflt absent : cvalue) : cvalue :=
  match sec with
  | Some entries => default dflt (entries !! u key)
  | None => absent
  end.
Arguments field sec key%_string dflt absent.

(** [set(v)] *)
Definition py_set (v : cvalue) : outcome (gset str) :=
  match v with
  | CList items => Ok (list_to_set items)
  | CStr s => Ok (list_to_set (map (fun c => [c]) s))
  | _ => Raise (Exception "TypeError")
  end.

(** The [ignore_commands] of [from_dict]. *)
Definition ignore_commands_of (capture : option (gmap str cvalue))
  : outcome (gset str) :=
  match capture with
  | Some entries =>
    py_set (default (CList []) (entries !! u "ignore_commands"))
  | None => Ok default_ignore_commands
  end.

(** [from_dict] *)
Definition from_dict (data : gmap str node) : outcome ShadowConfig :=
  match section data "project" with
  | Raise e => Raise e
  | Ok project =>
  match section data "capture" with
  | Raise e => Raise e
  | Ok capture =>
  match ignore_commands_of capture with
  | Raise e => Raise e
  | Ok ignore =>
  match section data "heartbeat" with
  | Raise e => Raise e
  | Ok heartbeat =>
  match section data "output" with
  | Raise e => Raise e
  | Ok output =>
  match section data "llm" with
  | Raise e => Raise e
  | Ok llm =>
    Ok {| project_name := field project "name" (text "default") (text "default");
          project_path := field project "path" (text ".") (text ".");
          handoff_file :=
            field project "handoff" (text "HANDOFF.md") (text "HANDOFF.md");
          ignore_commands := ignore;
          capture_all_errors :=
            field capture "capture_all_errors" (CBool true) (CBool true);
          capture_git_commits :=
            field capture "capture_git_commits" (CBool true) (CBool true);
          capture_build_commands :=
            field capture "capture_build_commands" (CBool true) (CBool true);
          heartbeat_enabled :=
            field heartbeat "enabled" (CBool true) (CBool true);
          heartbeat_interval_minutes :=
            field heartbeat "interval_minutes" (CInt 5) (CInt 5);
          max_entry_length :=
            field output "max_entry_length" (CInt 2000) (CInt 2000);
          include_timestamps :=
            field output "include_timestamps" (CBool true) (CBool true);
          format := field output "format" (text "markdown") (text "markdown");
          llm_enabled := field llm "enabled" (CBool false) (CBool false);
          llm_provider := field llm "provider" (text "local") (text "local");
          llm_model := field llm "model" (text "") (text "");
          summarize_errors :=
            field llm "summarize_errors" (CBool false) (CBool false) |}
  end end end end end end.

(** [to_dict] *)
Definition to_dict (c : ShadowConfig) : gmap str node :=
  list_to_map
    [ (u "project",
       Mapping (list_to_map
         [ (u "name", project_name c);
           (u "path", project_path c);
           (u "handoff", handoff_file c) ]));
      (u "capture",
       Mapping (list_to_map
         [ (u "ignore_commands", CList (elements (ignore_commands c)));
           (u "capture_all_errors", capture_all_errors c);
           (u "capture_git_commits", capture_git_commits c);
           (u "capture_build_commands", capture_build_commands c) ]));
      (u "heartbeat",
       Mapping (list_to_map
         [ (u "enabled", heartbeat_enabled c);
           (u "interval_minutes", heartbeat_interval_minutes c) ]));
      (u "output",
       Mapping (list_to_map
         [ (u "max_entry_length", max_entry_length c);
           (u "include_timestamps", include_timestamps c);
           (u "format", format c) ]));
      (u "llm",
       Mapping (list_to_map
         [ (u "enabled", llm_enabled c);
           (u "provider", llm_provider c);
           (u "model", llm_model c);
           (u "summarize_errors", summarize_errors c) ])) ].

(** A document with a [capture] section that sets one flag only. *)
Definition capture_flag_only : gmap str node :=
  {[ u "capture" :=
       Mapping {[ u "capture_git_commits" := CBool false ]} ]}.

End Config.

(** ** Notions for the properties below *)

(** The text a world's handoff file holds; when there is no file yet, the
    template as [_create_template] would write it at this moment. *)
Definition document (w : world) : str :=
  match file w with
  | Some content => content
  | None => template (fmt_date (clock w (reads w)))
                     (fmt_minutes_utc (clock w (S (reads w))))
  end.

(** The text [extract_error_summary] looks at. *)
Definition error_output (event : CommandResult) : str :=
  if negb (str_eqb (stderr event) []) then stderr event else stdout event.

(** The dictionary [get_session_stats] returns for a shadow, given the
    text of the duration. *)
Definition stats_of (sh : TerminalShadow) (duration : str)
  : gmap str pyval :=
  list_to_map
    [ (u "session_start", VStr (isoformat (shadow_session_start sh)));
      (u "duration", VStr duration);
      (u "command_count", VInt (_command_count sh));
      (u "last_command",
       match _last_command sh with
       | Some r => VStr (command r)
       | None => VNone
       end);
      (u "project_path", VStr (project_path sh)) ].

(** The world after [n] further readings of the clock. *)
Definition later (n : nat) (w : world) : world :=
  {| file := file w; clock := clock w; reads := n + reads w |}.




(** A text with no newline in it, and a position of the matcher with no
    newline ahead and none in the groups captured so far. *)
Definition one_line (s : str) : Prop := Forall (λ c, not_nl c = true) s.

Definition one_line_pos (p : pos) : Prop :=
  one_line (rest p) ∧ Forall (λ it, one_line (snd it)) (caps p).

(** The characters of a number's decimal text: the sign and the digits. *)
Definition numeric (c : char) : Prop := (c = 45 ∨ 48 <= c <= 57)%N.

(** The text [extract_file_context] searches. *)
Definition file_context_text (event : CommandResult) : str :=
  command event ++ [NL] ++ stderr event ++ [NL] ++ stdout event.

(** ** Further sample inputs *)

(** A successful build whose output mentions an error. *)
Definition cmake_build : CommandResult :=
  outcome_of "cmake --build ." "warning: 1 error ignored" "" 0.

(** A failure that printed its message on standard output and a blank
    line on standard error. *)
Definition blank_stderr_failure : CommandResult :=
  outcome_of "./deploy.sh" "deploy failed: no route to host" "  " 1.

(** A shadow that has run no command yet, and one that has run one. *)
Definition fresh_shadow : TerminalShadow :=
  {| project_path := u "/srv/app"; _command_count := 0;
     shadow_session_start := noon; _last_command := None |}.


(** The heartbeat service of a session, started at noon. *)
Definition wired_service : HeartbeatService session_state :=
  {| interval := 300;
     get_stats := Some get_session_stats;
     on_heartbeat := Some (fun stats => on_world (append_heartbeat stats));
     _running := true; _thread := true;
     _session_start := noon; _heartbeat_count := 0 |}.

(** An [on_event] callback that records the kinds it is called with. *)
Definition record_kind (result : CommandResult) (kind : EventType)
  : M (list EventType) unit :=
  fun seen => (Ok tt, kind :: seen).

(** A command that [check_significant] reports as a decision. *)
Definition gh_result (out err : string) : CommandResult :=
  outcome_of "gh pr list" out err 0.

(* ===================================================================== *)
(** * Properties of the event filter                                      *)
(* ===================================================================== *)

(** C6. Whatever the command text and the captured output are, an
    outcome whose exit code is not zero is classified [ERROR]. *)
Theorem classify_nonzero_exit (T : tables) (F : EventFilter)
    (event : CommandResult) :
  exit_code event ≠ 0%Z → classify T F event = ERROR.
Proof.
  intros Hcode. unfold classify.
  destruct (Z.eqb_spec (exit_code event) 0) as [Heq | _]; [contradiction | reflexivity].
Qed.

Lemma classify_nonzero_exit_witness :
  exit_code (outcome_of "ls -la" "error" "" 2) ≠ 0%Z
  ∧ classify ascii_tables default_filter (outcome_of "ls -la" "error" "" 2)
    = ERROR.
Proof.
  split.
  - discriminate.
  - apply (classify_nonzero_exit ascii_tables default_filter
             (outcome_of "ls -la" "error" "" 2)).
    discriminate.
Defined.

(** C5. Scenario B: [go test ./...] exiting with 1 and the panic line on
    stderr is an [ERROR], and its summary is the text after [panic: ]. *)
Theorem scenario_B_panic (T : tables) (F : EventFilter) (out : str) (ms : Z)
    (dir : str) (t : datetime) :
  classify T F (go_test_panic out ms dir t) = ERROR
  ∧ extract_error_summary T (go_test_panic out ms dir t)
    = u "index out of range [3] with length 2".
Proof.
  split.
  - reflexivity.
  - vm_compute. reflexivity.
Qed.

(** The other scenarios of the specification, run on the defaults. *)
Example scenario_A_ls :
  classify ascii_tables default_filter (outcome_of "ls -la" "" "" 0) = NOISE.
Proof. vm_compute. reflexivity. Qed.

Example scenario_C_git_commit :
  classify ascii_tables default_filter
           (outcome_of "git commit -m 'fix bug'" "" "" 0) = SUCCESS.
Proof. vm_compute. reflexivity. Qed.

Example scenario_D_build_succeeded :
  classify ascii_tables default_filter
           (outcome_of "npm run build" "Build succeeded" "" 0) = SUCCESS.
Proof. vm_compute. reflexivity. Qed.

(** Rule 5 goes by the words of the pattern that matched first. *)
Example output_pattern_error :
  classify ascii_tables default_filter
           (outcome_of "./run.sh" "Traceback (most recent call last)" "" 0)
  = SUCCESS
  ∧ classify ascii_tables default_filter
             (outcome_of "./run.sh" "3 tests FAILED" "" 0) = ERROR
  ∧ classify ascii_tables default_filter
             (outcome_of "terraform apply" "" "" 0) = DECISION.
Proof. repeat split; vm_compute; reflexivity. Qed.

(** ** [extract_file_context] *)

Lemma dedupe_fresh (files : list str) : ∀ (seen : gset str) (f : str),
  f ∈ dedupe seen files → (f ∉ seen) ∧ f ∈ files.
Proof.
  induction files as [| g files IH]; intros seen f Hin; simpl in Hin.
  - inversion Hin.
  - case_bool_decide as Hg.
    + destruct (IH _ _ Hin) as [Hns Hf]. split; [done | by right].
    + apply elem_of_cons in Hin as [-> | Hin].
      * split; [done | by left].
      * destruct (IH _ _ Hin) as [Hns Hf].
        split; [| by right].
        intros Hseen. apply Hns, elem_of_union. by right.
Qed.

Lemma dedupe_NoDup (files : list str) : ∀ seen : gset str,
  NoDup (dedupe seen files).
Proof.
  induction files as [| g files IH]; intros seen; simpl.
  - constructor.
  - case_bool_decide as Hg; [apply IH |].
    constructor; [| apply IH].
    intros Hin. apply dedupe_fresh in Hin as [Hns _]. set_solver.
Qed.

Lemma candidate_files_short (T : tables) (combined f : str) :
  f ∈ candidate_files T combined → length f < 200.
Proof.
  unfold candidate_files. intros Hin.
  apply list_elem_of_In, in_flat_map in Hin as (r & _ & Hin).
  apply filter_In in Hin as [_ Hkeep].
  apply andb_true_iff in Hkeep as [_ Hlen].
  by apply Nat.ltb_lt in Hlen.
Qed.

(** Every token found by one of the three patterns contains a dot, so the
    test [looks_like_file] accepts it whether or not it starts with
    [http]. *)
Lemma looks_like_file_dot (m : str) :
  has_char (ch ".") m = true → looks_like_file m = true.
Proof. unfold looks_like_file. intros ->. apply orb_true_r. Qed.

(** What does hold of [extract_file_context] on every outcome: at most ten
    tokens, no token twice, every token shorter than 200 characters. *)
Lemma extract_file_context_bounds (T : tables) (event : CommandResult) :
  length (extract_file_context T event) ≤ 10
  ∧ NoDup (extract_file_context T event)
  ∧ Forall (λ f, length f < 200) (extract_file_context T event).
Proof.
  unfold extract_file_context. split; [| split].
  - rewrite length_take. lia.
  - eapply sublist_NoDup; [apply dedupe_NoDup | apply sublist_take].
  - apply Forall_forall. intros f Hin.
    apply elem_of_take in Hin as (i & Hin & _).
    apply list_elem_of_lookup_2 in Hin.
    apply dedupe_fresh in Hin as [_ Hin].
    by apply candidate_files_short in Hin.
Qed.

(** C4. The outcome of [apachectl -t -f httpd.conf] failing with
    [Syntax error] is an [ERROR], so its file context is extracted; the
    list returned is [["httpd.conf"]], a token that begins with [http].
    The test meant to discard such tokens lets every token with a dot
    through. *)
Theorem file_context_keeps_http_token (T : tables) (F : EventFilter) :
  classify T F apachectl_failure = ERROR
  ∧ extract_file_context T apachectl_failure = [u "httpd.conf"]
  ∧ starts_with (u "http") (u "httpd.conf") = true.
Proof. repeat split; vm_compute; reflexivity. Qed.

(* ===================================================================== *)
(** * Properties of the heartbeat service                                 *)
(* ===================================================================== *)

Section HeartbeatFacts.
Context {E : Type} (clock_now : E → datetime * E).
Implicit Types (hb : HeartbeatService E) (e : E).

(** A tick, unfolded: the count goes up, the clock is read twice, then the
    provider and the sink are called in turn. *)
Lemma emit_heartbeat_unfold hb e :
  _emit_heartbeat E clock_now (hb, e)
  = bind (call_provider E (incr_count E hb) (base_snapshot E clock_now hb e))
         (call_sink E (incr_count E hb))
         (incr_count E hb, after_clock E clock_now e).
Proof. reflexivity. Qed.

Lemma call_provider_self hb stats (s : HeartbeatService E * E) r s' :
  call_provider E hb stats s = (r, s') → s'.1 = s.1.
Proof.
  unfold call_provider. destruct (get_stats hb) as [p |].
  - unfold env. destruct (p s.2) as [[extra | [n | n]] e']; intros [= <- <-]; reflexivity.
  - intros [= <- <-]. reflexivity.
Qed.

Lemma call_provider_no_exception hb stats s name s' :
  call_provider E hb stats s ≠ (Raise (Exception name), s').
Proof.
  unfold call_provider. destruct (get_stats hb) as [p |]; [| discriminate].
  unfold env. destruct (p s.2) as [[extra | [n | n]] e']; discriminate.
Qed.

Lemma call_sink_self hb stats (s : HeartbeatService E * E) r s' :
  call_sink E hb stats s = (r, s') → s'.1 = s.1.
Proof.
  unfold call_sink. destruct (on_heartbeat hb) as [k |].
  - unfold try_pass, env. destruct (k stats s.2) as [[[] | [n | n]] e'];
      intros [= <- <-]; reflexivity.
  - intros [= <- <-]. reflexivity.
Qed.

Lemma call_sink_no_exception hb stats s name s' :
  call_sink E hb stats s ≠ (Raise (Exception name), s').
Proof.
  unfold call_sink. destruct (on_heartbeat hb) as [k |]; [| discriminate].
  unfold try_pass, env. destruct (k stats s.2) as [[[] | [n | n]] e']; discriminate.
Qed.

(** Whatever the callbacks do, a tick leaves every field of the service
    as it was, except the count, which is one more. *)
Lemma emit_heartbeat_count hb e r s' :
  _emit_heartbeat E clock_now (hb, e) = (r, s') → s'.1 = incr_count E hb.
Proof.
  rewrite emit_heartbeat_unfold. unfold bind.
  destruct (call_provider _ _ _ _) as [[stats | x] s1] eqn:Hp.
  - intros Hk. apply call_sink_self in Hk. apply call_provider_self in Hp.
    simpl in *. congruence.
  - intros [= <- <-]. by apply call_provider_self in Hp.
Qed.

(** No tick ends in an exception of class [Exception]. *)
Lemma emit_heartbeat_no_exception hb e name s' :
  _emit_heartbeat E clock_now (hb, e) ≠ (Raise (Exception name), s').
Proof.
  rewrite emit_heartbeat_unfold. unfold bind.
  destruct (call_provider _ _ _ _) as [[stats | x] s1] eqn:Hp.
  - apply call_sink_no_exception.
  - intros [= -> ->]. by apply call_provider_no_exception in Hp.
Qed.




(** C10. [emit_now] is a tick, whatever the running flag says: the count
    goes up by exactly one and no other field changes; a provider and a
    sink that are set are both called, the sink with the merged snapshot;
    and the flag has no influence on any of it. *)
Theorem emit_now_ignores_running hb e :
  emit_now E clock_now (hb, e) = _emit_heartbeat E clock_now (hb, e)
  ∧ (∀ r s', emit_now E clock_now (hb, e) = (r, s') →
       s'.1 = incr_count E hb
       ∧ _heartbeat_count s'.1 = (_heartbeat_count hb + 1)%Z
       ∧ _running s'.1 = _running hb)
  ∧ (∀ p k extra e3 r e4,
       get_stats hb = Some p → on_heartbeat hb = Some k →
       p (after_clock E clock_now e) = (Ok extra, e3) →
       k (dict_update (base_snapshot E clock_now hb e) extra) e3 = (r, e4) →
       escapes r = false →
       emit_now E clock_now (hb, e) = (Ok tt, (incr_count E hb, e4)))
  ∧ (∀ b r hb' e',
       emit_now E clock_now (hb, e) = (r, (hb', e')) →
       emit_now E clock_now (with_running E b hb, e)
       = (r, (with_running E b hb', e'))).
Proof.
  split; [reflexivity | split; [| split]].
  - intros r s' Hemit. apply emit_heartbeat_count in Hemit.
    rewrite Hemit. auto.
  - intros p k extra e3 r e4 Hp Hk Hprov Hsink Hr. unfold emit_now.
    rewrite emit_heartbeat_unfold. unfold bind, call_provider, call_sink.
    simpl. rewrite Hp, Hk. unfold try_pass, env. simpl.
    rewrite Hprov. simpl. rewrite Hsink.
    destruct r as [[] | [n | n]]; [reflexivity | reflexivity | discriminate].
  - intros b r hb' e'. unfold emit_now. rewrite !emit_heartbeat_unfold.
    unfold bind, call_provider, call_sink, try_pass, env. simpl.
    destruct (get_stats hb) as [p |]; simpl.
    + destruct (p (after_clock E clock_now e)) as [[extra | [n | n]] e3]; simpl.
      * destruct (on_heartbeat hb) as [k |]; simpl.
        -- destruct (k _ e3) as [[[] | [n | n]] e4]; intros [= <- <- <-]; reflexivity.
        -- intros [= <- <- <-]; reflexivity.
      * destruct (on_heartbeat hb) as [k |]; simpl.
        -- destruct (k _ e3) as [[[] | [n' | n']] e4]; intros [= <- <- <-]; reflexivity.
        -- intros [= <- <- <-]; reflexivity.
      * intros [= <- <- <-]; reflexivity.
    + destruct (on_heartbeat hb) as [k |]; simpl.
      * destruct (k _ _) as [[[] | [n | n]] e4]; intros [= <- <- <-]; reflexivity.
      * intros [= <- <- <-]; reflexivity.
Qed.

End HeartbeatFacts.


Lemma emit_now_ignores_running_witness :
  _running (idle_service (Some stats_ok) (Some sink_ok)) = false
  ∧ emit_now sink_log fixed_clock
      (idle_service (Some stats_ok) (Some sink_ok), [])
    = (Ok tt,
       (incr_count sink_log (idle_service (Some stats_ok) (Some sink_ok)),
        [dict_update
           (base_snapshot sink_log fixed_clock
              (idle_service (Some stats_ok) (Some sink_ok)) [])
           {[ u "command_count" := VInt 7 ]}])).
Proof.
  split; [reflexivity |].
  destruct (emit_now_ignores_running fixed_clock
              (idle_service (Some stats_ok) (Some sink_ok)) [])
    as (_ & _ & Hcalls & _).
  exact (Hcalls stats_ok sink_ok _ [] (Ok tt) _
           eq_refl eq_refl eq_refl eq_refl eq_refl).
Defined.

(* ===================================================================== *)
(** * Properties of the handoff updater                                   *)
(* ===================================================================== *)

(** ** Text helpers *)

Lemma str_eqb_eq (a b : str) : str_eqb a b = true ↔ a = b.
Proof.
  revert b. induction a as [| x a IH]; intros [| y b]; simpl; try easy.
  rewrite andb_true_iff, N.eqb_eq, IH. split.
  - intros [-> ->]. reflexivity.
  - intros [= -> ->]. done.
Qed.

Lemma str_eqb_nil (a : str) : str_eqb a [] = true ↔ a = [].
Proof. apply str_eqb_eq. Qed.

Lemma lstrip_head (s : str) c s' : lstrip s = c :: s' → is_space c = false.
Proof.
  induction s as [| x s IH]; simpl; [discriminate |].
  destruct (is_space x) eqn:Hx; [exact IH |].
  intros [= <- <-]. exact Hx.
Qed.

Lemma lstrip_fixed c (s : str) : is_space c = false → lstrip (c :: s) = c :: s.
Proof. simpl. by intros ->. Qed.

Lemma lstrip_snoc (r : str) d :
  is_space d = false → ∃ q, lstrip (r ++ [d]) = q ++ [d].
Proof.
  intros Hd. induction r as [| x r IH]; simpl.
  - rewrite Hd. by exists [].
  - destruct (is_space x); [exact IH |]. by exists (x :: r).
Qed.

Lemma rstrip_snoc (s : str) d : is_space d = false → rstrip (s ++ [d]) = s ++ [d].
Proof.
  intros Hd. unfold rstrip. rewrite rev_app_distr. simpl. rewrite Hd.
  simpl. by rewrite rev_involutive.
Qed.

Lemma rstrip_last (s : str) :
  rstrip s = [] ∨ ∃ r d, rstrip s = r ++ [d] ∧ is_space d = false.
Proof.
  unfold rstrip. destruct (lstrip (rev s)) as [| d t] eqn:Hl.
  - by left.
  - right. exists (rev t), d. split; [reflexivity |].
    by apply lstrip_head in Hl.
Qed.

(** A stripped text is empty, or begins and ends with a character that is
    not white space. *)
Lemma strip_shape (s : str) :
  strip s = []
  ∨ ∃ c t q d, strip s = c :: t ∧ strip s = q ++ [d]
               ∧ is_space c = false ∧ is_space d = false.
Proof.
  unfold strip. destruct (rstrip_last s) as [-> | (r & d & -> & Hd)].
  - by left.
  - right. destruct (lstrip_snoc r d Hd) as [q Hq].
    destruct (lstrip (r ++ [d])) as [| c t] eqn:Hl.
    + destruct q; discriminate.
    + exists c, t, q, d. repeat split; try done.
      by apply lstrip_head in Hl.
Qed.

Lemma strip_fixed (s : str) c t q d :
  s = c :: t → s = q ++ [d] → is_space c = false → is_space d = false →
  strip s = s.
Proof.
  intros Hhead Hlast Hc Hd. unfold strip.
  rewrite Hlast, rstrip_snoc by done. rewrite <- Hlast, Hhead.
  by apply lstrip_fixed.
Qed.

Lemma strip_idempotent (s : str) : strip (strip s) = strip s.
Proof.
  destruct (strip_shape s) as [-> | (c & t & q & d & Hh & Hl & Hc & Hd)].
  - reflexivity.
  - by eapply strip_fixed.
Qed.

(** ** [_truncate] *)

(** The marker appended to a shortened text ends with a parenthesis. *)
Lemma truncated_marker_last (n : nat) :
  [NL] ++ u "... (truncated, " ++ str_of_nat n ++ u " total chars)"
  = ([NL] ++ u "... (truncated, " ++ str_of_nat n ++ u " total chars")
      ++ [ch ")"].
Proof. rewrite <- !app_assoc. reflexivity. Qed.

Lemma truncate_fixed_point (s : str) (L : Z) :
  (Z.of_nat (length (strip s)) <= L)%Z →
  _truncate (_truncate s L) L = _truncate s L.
Proof.
  intros Hshort.
  assert (Hone : _truncate s L = if str_eqb s [] then [] else strip s).
  { unfold _truncate. destruct (str_eqb s []); [reflexivity |].
    destruct (Z.leb_spec (Z.of_nat (length (strip s))) L); [reflexivity | lia]. }
  rewrite Hone. destruct (str_eqb s []) eqn:Hs; [reflexivity |].
  unfold _truncate. destruct (str_eqb (strip s) []) eqn:Ht.
  - apply str_eqb_nil in Ht. by rewrite Ht.
  - rewrite strip_idempotent.
    destruct (Z.leb_spec (Z.of_nat (length (strip s))) L); [reflexivity | lia].
Qed.

(** The first [L] characters of a shortened text are those of the
    stripped text, and shortening it again keeps them. *)
Lemma truncate_long (s : str) (L : Z) :
  (0 < L)%Z → (L < Z.of_nat (length (strip s)))%Z →
  slice_to L (_truncate s L) = take (Z.to_nat L) (strip s)
  ∧ slice_to L (_truncate (_truncate s L) L) = take (Z.to_nat L) (strip s).
Proof.
  intros Hpos Hlong.
  assert (Hs : str_eqb s [] = false).
  { destruct (str_eqb s []) eqn:Hs; [| done].
    apply str_eqb_nil in Hs. subst s. simpl in Hlong. lia. }
  set (t := strip s) in *.
  set (n := Z.to_nat L).
  assert (Hn : n < length t) by lia.
  assert (Hn0 : 0 < n) by lia.
  set (T1 := take n t ++ [NL] ++ u "... (truncated, " ++ str_of_nat (length t)
               ++ u " total chars)").
  assert (Htr : _truncate s L = T1).
  { unfold _truncate. rewrite Hs. fold t.
    destruct (Z.leb_spec (Z.of_nat (length t)) L); [lia |].
    unfold slice_to. destruct (Z.leb_spec 0 L); [reflexivity | lia]. }
  assert (Hslice : ∀ rest, slice_to L ((take n t ++ rest)) = take n t).
  { intros rest. unfold slice_to. destruct (Z.leb_spec 0 L); [| lia].
    fold n. rewrite take_app_le by (rewrite length_take; lia).
    rewrite take_take. f_equal. lia. }
  split.
  - rewrite Htr. apply Hslice.
  - rewrite Htr.
    (* the shortened text is already stripped *)
    assert (Hstrip : strip T1 = T1).
    { destruct (strip_shape s) as [Hnil | (c & t' & q & d & Hh & _ & Hc & _)].
      - fold t in Hnil. rewrite Hnil in Hn. simpl in Hn. lia.
      - fold t in Hh.
        eapply (strip_fixed T1 c (take (n - 1) t' ++ _) _ (ch ")")).
        + unfold T1. rewrite Hh. destruct n; [lia |]. simpl.
          rewrite Nat.sub_0_r. reflexivity.
        + unfold T1. rewrite truncated_marker_last, app_assoc. reflexivity.
        + exact Hc.
        + reflexivity. }
    assert (Hlen : n < length T1).
    { unfold T1. rewrite length_app, length_take. simpl. lia. }
    unfold _truncate.
    destruct (str_eqb T1 []) eqn:HT1.
    { apply str_eqb_nil in HT1. rewrite HT1 in Hlen. simpl in Hlen. lia. }
    rewrite Hstrip.
    destruct (Z.leb_spec (Z.of_nat (length T1)) L); [lia |].
    unfold slice_to at 2. destruct (Z.leb_spec 0 L); [| lia]. fold n.
    unfold T1 at 1. rewrite take_app_le by (rewrite length_take; lia).
    rewrite take_take, Nat.min_id. apply Hslice.
Qed.

(** C7. Truncating a text that is longer than the limit, and truncating
    the result again at the same limit, show the same first [L]
    characters. *)
Theorem truncate_idempotent_prefix (s : str) (L : Z) :
  (0 <= L)%Z → (L < Z.of_nat (length s))%Z →
  slice_to L (_truncate (_truncate s L) L) = slice_to L (_truncate s L).
Proof.
  intros HL _.
  destruct (Z.le_gt_cases (Z.of_nat (length (strip s))) L) as [Hshort | Hlong].
  - by rewrite truncate_fixed_point.
  - destruct (Z.eq_dec L 0%Z) as [-> | Hne].
    + reflexivity.
    + destruct (truncate_long s L) as [H1 H2]; [lia | lia |]. congruence.
Qed.

Lemma truncate_idempotent_prefix_witness :
  (0 <= 4)%Z ∧ (4 < Z.of_nat (length (u "  abcdefgh ")))%Z
  ∧ slice_to 4 (_truncate (_truncate (u "  abcdefgh ") 4) 4)
    = slice_to 4 (_truncate (u "  abcdefgh ") 4).
Proof.
  split; [lia |]. split; [vm_compute; reflexivity |].
  apply (truncate_idempotent_prefix (u "  abcdefgh ") 4).
  - lia.
  - vm_compute. reflexivity.
Defined.

(** Scenario E: the heartbeat entry for 7 commands says so. *)
Example scenario_E_heartbeat :
  ∃ entry,
    heartbeat_entry (u "2024-03-09 12:00 UTC")
                    (list_to_map [ (u "duration", VStr (u "12m"));
                                   (u "command_count", VInt 7) ])
    = Ok entry
    ∧ contains (u "Commands Executed:** 7") entry = true.
Proof. eexists. split; vm_compute; reflexivity. Qed.

(** ** [append_event] *)

(** C9. An event classified [NOISE] is not logged: nothing is formatted,
    the file is neither read nor written, the clock is not consulted. *)
Theorem append_event_noise (T : tables) (event : CommandResult)
    (error_summary : option str) (files : option (list str)) (w : world) :
  append_event T event NOISE error_summary files w = (Ok tt, w).
Proof. reflexivity. Qed.

(** ** Lines of a text *)

Lemma split_lines_nil : split_lines [] = [[]].
Proof. reflexivity. Qed.

Lemma split_lines_cons c (s : str) :
  split_lines (c :: s)
  = if (c =? NL)%N then [] :: split_lines s else cons_head c (split_lines s).
Proof.
  unfold split_lines, split. simpl. rewrite andb_true_r, N.eqb_sym.
  reflexivity.
Qed.

Lemma split_lines_nonempty (s : str) : split_lines s ≠ [].
Proof.
  destruct s as [| c s]; [discriminate |].
  rewrite split_lines_cons. destruct (c =? NL)%N; [discriminate |].
  by destruct (split_lines s).
Qed.


Lemma join_cons (sep p : str) (ps : list str) :
  ps ≠ [] → join sep (p :: ps) = p ++ sep ++ join sep ps.
Proof. by destruct ps. Qed.

Lemma join_split_lines (s : str) : join [NL] (split_lines s) = s.
Proof.
  induction s as [| c s IH]; [reflexivity |].
  rewrite split_lines_cons. destruct (N.eqb_spec c NL) as [-> | Hc].
  - rewrite join_cons by apply split_lines_nonempty. simpl. by rewrite IH.
  - pose proof (split_lines_nonempty s) as Hne.
    destruct (split_lines s) as [| l ls]; [done |]. simpl in *.
    destruct ls; simpl in *; by rewrite <- IH.
Qed.

Lemma has_char_cons c x (s : str) :
  has_char c (x :: s) = (c =? x)%N || has_char c s.
Proof. reflexivity. Qed.

Lemma has_char_cons_false c x (s : str) :
  x ≠ c → has_char c s = false → has_char c (x :: s) = false.
Proof.
  intros Hx Hs. rewrite has_char_cons, Hs, orb_false_r.
  apply N.eqb_neq. congruence.
Qed.

Lemma split_lines_no_nl (s : str) :
  Forall (λ l, has_char NL l = false) (split_lines s).
Proof.
  induction s as [| c s IH]; [by repeat constructor |].
  rewrite split_lines_cons. destruct (N.eqb_spec c NL) as [-> | Hc].
  - by constructor.
  - destruct (split_lines s) as [| l ls]; cbn [cons_head].
    + repeat constructor. by apply has_char_cons_false.
    + inversion IH as [| ? ? Hl Hls]; subst. constructor; [| done].
      by apply has_char_cons_false.
Qed.

Lemma split_lines_single (l : str) :
  has_char NL l = false → split_lines l = [l].
Proof.
  induction l as [| c l IH]; [reflexivity |].
  rewrite has_char_cons. intros Hno. apply orb_false_iff in Hno as [Hc Hl].
  rewrite split_lines_cons, N.eqb_sym, Hc, IH by done. reflexivity.
Qed.



(** ** Where [_insert_entry] puts an entry *)

Lemma starts_with_app (m a b : str) :
  starts_with m a = true → starts_with m (a ++ b) = true.
Proof.
  revert a. induction m as [| x m IH]; intros [| y a]; simpl; try done.
  rewrite !andb_true_iff. intros [-> Hm]. auto.
Qed.











Lemma str_eqb_neq (a b : str) : str_eqb a b = false → a ≠ b.
Proof.
  intros Hne Heq. apply str_eqb_eq in Heq. congruence.
Qed.






(** ** Entries accumulate oldest first *)





(* ===================================================================== *)
(** * Properties of the matcher                                           *)
(* ===================================================================== *)

Section MatcherFacts.
Variable T : tables.

Lemma pos_eta (p : pos) :
  {| before := before p; rest := rest p; caps := caps p |} = p.
Proof. by destruct p. Qed.

(** A literal, matched case-sensitively, is a prefix test. *)
Lemma rmatch_lits (l : str) : ∀ (p : pos) (k : pos → option pos),
  rmatch T false (lits l) p k
  = if starts_with l (rest p) then k (after_lits l p) else None.
Proof.
  induction l as [| c l IH]; intros p k; [reflexivity |].
  assert (Hone : ∀ k', one (lit_eq T false c) p k'
                       = match rest p with
                         | x :: s =>
                           if (c =? x)%N
                           then k' {| before := Some c; rest := s; caps := caps p |}
                           else None
                         | [] => None
                         end).
  { intros k'. unfold one, lit_eq, advance. destruct (rest p) as [| x s]; [done |].
    destruct (N.eqb_spec c x) as [-> | _]; reflexivity. }
  destruct l as [| c' l].
  - cbn [lits rmatch]. rewrite Hone. cbn [starts_with after_lits].
    destruct (rest p) as [| x s]; [done |]. cbn [tail].
    rewrite andb_true_r. reflexivity.
  - change (lits (c :: c' :: l)) with (Seq (Lit c) (lits (c' :: l))).
    cbn [rmatch]. rewrite Hone.
    cbn [starts_with after_lits]. destruct (rest p) as [| x s] eqn:Hrest; [done |].
    cbn [tail]. destruct (c =? x)%N; [| reflexivity].
    rewrite IH. reflexivity.
Qed.

Lemma rmatch_lits_fail (l : str) (r : regex) (p : pos) (k : pos → option pos) :
  starts_with l (rest p) = false →
  rmatch T false (Seq (lits l) r) p k = None.
Proof. intros Hno. cbn [rmatch]. by rewrite rmatch_lits, Hno. Qed.

(** Greedy repetition of a one-character test, before a continuation that
    cannot fail, reads on as long as the test holds. *)
Lemma star_loop_run (ok : char → bool) (k : pos → option pos) :
  (∀ q, is_Some (k q)) →
  ∀ (fuel : nat) (p : pos),
    length (rest p) ≤ fuel →
    star_loop (one ok) k fuel p
    = k (after_run ok (rest p) (before p) (caps p)).
Proof.
  intros Hk. induction fuel as [| fuel IH]; intros p Hlen.
  - destruct p as [b [| c s] cs]; simpl in *; [reflexivity | lia].
  - cbn [star_loop]. unfold one at 1.
    destruct p as [b [| c s] cs]; cbn [rest before caps after_run length] in *.
    + reflexivity.
    + destruct (ok c); [| reflexivity].
      unfold advance. cbn [rest before caps length].
      destruct (Nat.ltb_spec (length s) (S (length s))); [| lia].
      rewrite IH by (cbn [rest]; lia). cbn [rest before caps].
      by destruct (Hk (after_run ok s (Some c) cs)) as [q ->].
Qed.

Lemma after_lits_rest (l : str) : ∀ p : pos,
  starts_with l (rest p) = true →
  rest (after_lits l p) = drop (length l) (rest p)
  ∧ caps (after_lits l p) = caps p.
Proof.
  induction l as [| c l IH]; intros p Hl; [done |].
  cbn [after_lits]. destruct (rest p) as [| x s] eqn:Hrest; [done |].
  cbn [starts_with] in Hl. apply andb_true_iff in Hl as [_ Hl].
  destruct (IH {| before := Some c; rest := tail (x :: s); caps := caps p |} Hl)
    as [Hr Hc].
  rewrite Hr, Hc. done.
Qed.

Lemma after_run_rest (s : str) : ∀ prev cs,
  rest (after_run not_nl s prev cs) = drop (length (line_head s)) s
  ∧ caps (after_run not_nl s prev cs) = cs.
Proof.
  induction s as [| c s IH]; intros prev cs; [done |].
  cbn [after_run line_head]. destruct (not_nl c); [| done].
  apply IH.
Qed.

Lemma line_head_length (s : str) : length (line_head s) ≤ length s.
Proof.
  induction s as [| c s IH]; [done |].
  cbn [line_head]. destruct (not_nl c); cbn [length]; lia.
Qed.

Lemma lit_then_char_spec (m : str) : ∀ s : str,
  lit_then_char m s
  = starts_with m s
    && match drop (length m) s with
       | c :: _ => not_nl c
       | [] => false
       end.
Proof.
  induction m as [| x m IH]; intros [| c s]; cbn [lit_then_char starts_with];
    try done.
  rewrite IH. cbn [length drop]. by rewrite andb_assoc.
Qed.

Lemma starts_with_length (m s : str) :
  starts_with m s = true → length m ≤ length s.
Proof.
  revert s. induction m as [| x m IH]; intros [| c s]; cbn; try done; [lia |].
  intros [_ Hm]%andb_true_iff. apply IH in Hm. lia.
Qed.

(** What one attempt of [updated_re] finds: the literal, then the rest of
    the line, which must not be empty. *)
Lemma match_here_updated (prev : option char) (s : str) :
  match_here T false updated_re prev s
  = match updated_field_len s with
    | Some n => Some ({| m_text := take n s; m_caps := [] |}, n)
    | None => None
    end.
Proof.
  unfold match_here, updated_field_len.
  set (ok := λ x : char, xorb true (existsb (item_has T x) [CChar NL])).
  assert (Hok : ∀ x, ok x = not_nl x).
  { intros x. unfold ok. cbn. by rewrite orb_false_r. }
  assert (Hrun : ∀ t prev' cs,
             after_run ok t prev' cs = after_run not_nl t prev' cs).
  { induction t as [| y t IHt]; intros prev' cs; [done |].
    cbn [after_run]. rewrite Hok. destruct (not_nl y); [apply IHt | done]. }
  change (rmatch T false updated_re (start_pos prev s) Some)
    with (rmatch T false (lits UPDATED) (start_pos prev s)
            (λ p, one ok p
                    (λ p', star_loop (one ok) Some (length (rest p')) p'))).
  rewrite rmatch_lits, lit_then_char_spec.
  change (rest (start_pos prev s)) with s.
  destruct (starts_with UPDATED s) eqn:Hlit; [| done]. cbn [andb].
  destruct (after_lits_rest UPDATED (start_pos prev s) Hlit) as [Hrest Hcaps].
  change (rest (start_pos prev s)) with s in Hrest.
  change (caps (start_pos prev s)) with (@nil (nat * str)) in Hcaps.
  unfold one, advance. rewrite Hrest.
  destruct (drop (length UPDATED) s) as [| c r] eqn:Hdrop; [done |].
  rewrite Hok. destruct (not_nl c) eqn:Hc; [| done].
  cbn [rest caps]. rewrite Hcaps.
  rewrite (star_loop_run ok Some) by (eauto || (cbn [rest]; lia)).
  cbn [rest before caps].
  rewrite Hrun. destruct (after_run_rest r (Some c) []) as [-> ->].
  cbn [line_head]. rewrite Hc. cbn [length].
  pose proof (starts_with_length _ _ Hlit) as Hlen.
  pose proof (line_head_length r) as Hhead.
  assert (Hs : length s = length UPDATED + S (length r)).
  { rewrite <- (take_drop (length UPDATED) s) at 1.
    rewrite length_app, length_take, Hdrop. cbn [length]. lia. }
  rewrite length_drop.
  replace (length s - (length r - length (line_head r)))
    with (length UPDATED + S (length (line_head r))) by lia.
  reflexivity.
Qed.

(** ** [get_recent_errors] finds nothing *)

Lemma starts_with_trans (a b s : str) :
  starts_with a b = true → starts_with b s = true → starts_with a s = true.
Proof.
  revert b s. induction a as [| x a IH]; intros [| y b] [| c s]; cbn; try done.
  rewrite !andb_true_iff, !N.eqb_eq. intros [-> Ha] [-> Hb]. eauto.
Qed.

Lemma match_here_title_fail (prev : option char) (s : str) :
  starts_with (u "##") s = false →
  match_here T false error_title_re prev s = None.
Proof.
  intros Hno. unfold match_here.
  change error_title_re
    with (Seq (lits (u "### ⚠ Error: ")) (Grp 1 (Plus NotNL))).
  rewrite rmatch_lits_fail; [done |].
  change (rest (start_pos prev s)) with s.
  destruct (starts_with (u "### ⚠ Error: ") s) eqn:Hs; [| done].
  by rewrite (starts_with_trans (u "##") (u "### ⚠ Error: ") s) in Hno.
Qed.

Lemma finditer_title_nil (s : str) : ∀ prev,
  contains (u "##") s = false →
  finditer_from T false error_title_re prev 0 s = [].
Proof.
  induction s as [| c s IH]; intros prev Hno.
  - cbn [finditer_from]. by rewrite match_here_title_fail.
  - cbn [contains] in Hno. apply orb_false_iff in Hno as [Hhere Hlater].
    cbn [finditer_from]. rewrite match_here_title_fail by done. by apply IH.
Qed.

Lemma split_from_nonempty (sep s : str) : ∀ k, split_from sep k s ≠ [].
Proof.
  induction s as [| c s IH]; intros k; [done |].
  cbn [split_from]. destruct k as [| k]; [| apply IH].
  destruct (starts_with sep (c :: s)); [done |].
  specialize (IH 0). by destruct (split_from sep 0 s).
Qed.

Lemma split_from_head_prefix (sep s : str) : ∀ h ps,
  split_from sep 0 s = h :: ps → ∃ t, s = h ++ t.
Proof.
  induction s as [| c s IH]; intros h ps; cbn [split_from].
  - intros [= <- <-]. by exists [].
  - destruct (starts_with sep (c :: s)).
    + intros [= <- <-]. by exists (c :: s).
    + destruct (split_from sep 0 s) as [| h' ps'] eqn:Hsplit;
        cbn [cons_head]; intros [= <- <-].
      * by destruct (split_from_nonempty sep s 0).
      * destruct (IH h' ps' eq_refl) as [t ->]. by exists t.
Qed.

(** The first piece of [s.split(sep)] has no occurrence of [sep]. *)
Lemma split_head_free (sep s : str) : ∀ h ps,
  sep ≠ [] → split sep s = h :: ps → contains sep h = false.
Proof.
  unfold split. induction s as [| c s IH]; intros h ps Hsep; cbn [split_from].
  - intros [= <- <-]. destruct sep; [done | reflexivity].
  - destruct (starts_with sep (c :: s)) eqn:Hhere.
    + intros [= <- <-]. destruct sep; [done | reflexivity].
    + destruct (split_from sep 0 s) as [| h' ps'] eqn:Hsplit;
        cbn [cons_head]; intros [= <- <-].
      * by destruct (split_from_nonempty sep s 0).
      * destruct (split_from_head_prefix sep s h' ps' Hsplit) as [t Ht].
        cbn [contains]. rewrite (IH h' ps' Hsep eq_refl), orb_false_r.
        destruct (starts_with sep (c :: h')) eqn:Hc; [| done].
        pose proof (starts_with_app sep (c :: h') t Hc) as Happ.
        cbn [app] in Happ. rewrite <- Ht in Happ. congruence.
Qed.

(** Whatever the document holds, [get_recent_errors] returns the empty
    list: the text it searches ends at the first [##] after the marker,
    and every title line begins with [###]. *)
Lemma recent_errors_of_nil (content : str) (count : Z) :
  recent_errors_of T content count = [].
Proof.
  unfold recent_errors_of.
  destruct (split _ content) as [| before_marker [| after_marker pieces]];
    [done | done |].
  unfold findall1.
  destruct (split (u "##") after_marker) as [| h ps] eqn:Hsplit.
  - by destruct (split_from_nonempty (u "##") after_marker 0).
  - cbn [head default].
    rewrite finditer_title_nil; [| eapply split_head_free; [| exact Hsplit]].
    2:{ intros Hnil. vm_compute in Hnil. discriminate. }
    cbn [map]. unfold slice_to. destruct (0 <=? count)%Z; apply take_nil.
Qed.

Lemma get_recent_errors_nil (count : Z) (w : world) :
  get_recent_errors T count w = (Ok [], w).
Proof.
  unfold get_recent_errors, bind, path_exists, read_file.
  destruct (file w) as [content |] eqn:Hfile.
  - rewrite bool_decide_eq_true_2 by eauto. cbn [negb].
    rewrite Hfile. unfold ret. by rewrite recent_errors_of_nil.
  - rewrite bool_decide_eq_false_2 by (by intros [? ?]). reflexivity.
Qed.

(** ** The "Updated" field *)

Lemma updated_field_len_hit (s : str) :
  is_Some (updated_field_len s) ↔ lit_then_char UPDATED s = true.
Proof.
  unfold updated_field_len. destruct (lit_then_char UPDATED s); split.
  - done.
  - intros _. eauto.
  - by intros [? ?].
  - done.
Qed.

Lemma search_from_updated (prev : option char) (s : str) :
  search_from T false updated_re prev s
  = match updated_field_len s with
    | Some n => Some {| m_text := take n s; m_caps := [] |}
    | None =>
      match s with
      | [] => None
      | c :: s' => search_from T false updated_re (Some c) s'
      end
    end.
Proof.
  destruct s as [| c s]; cbn [search_from]; rewrite match_here_updated;
    by destruct (updated_field_len _).
Qed.

Lemma search_updated_some (s : str) : ∀ prev,
  is_Some (search_from T false updated_re prev s)
  ↔ has_updated_field s = true.
Proof.
  induction s as [| c s IH]; intros prev; rewrite search_from_updated;
    cbn [has_updated_field].
  - pose proof (updated_field_len_hit []) as Hhit.
    destruct (updated_field_len []); rewrite orb_false_r.
    + split; [intros _; apply Hhit; eauto | eauto].
    + split; [by intros [? ?] |]. intros Hl. apply Hhit in Hl. by destruct Hl.
  - pose proof (updated_field_len_hit (c :: s)) as Hhit.
    destruct (updated_field_len (c :: s)).
    + split; [| eauto]. intros _. apply orb_true_iff. left. apply Hhit. eauto.
    + rewrite IH. destruct (lit_then_char UPDATED (c :: s)); [| done].
      destruct Hhit as [_ Hhit]. by destruct (Hhit eq_refl).
Qed.

Lemma sub_from_prev (repl s : str) : ∀ prev prev' k,
  sub_from T false updated_re repl prev k s
  = sub_from T false updated_re repl prev' k s.
Proof.
  induction s as [| c s IH]; intros prev prev' k; destruct k as [| k];
    cbn [sub_from]; rewrite ?match_here_updated; try done.
Qed.

Lemma sub_from_skip (repl : str) (k : nat) : ∀ (s : str) prev,
  sub_from T false updated_re repl prev k s
  = sub_from T false updated_re repl None 0 (drop k s).
Proof.
  induction k as [| k IH]; intros s prev.
  - rewrite drop_0. apply sub_from_prev.
  - destruct s as [| c s]; cbn [sub_from drop].
    + by rewrite match_here_updated.
    + apply IH.
Qed.

Lemma updated_field_len_min (s : str) (n : nat) :
  updated_field_len s = Some n → 0 < n.
Proof.
  unfold updated_field_len. destruct (lit_then_char UPDATED s); [| done].
  intros [= <-]. cbn. lia.
Qed.

Lemma sub_updated_hit (repl s : str) (n : nat) :
  updated_field_len s = Some n →
  sub T false updated_re repl s
  = repl ++ sub T false updated_re repl (drop n s).
Proof.
  intros Hn. pose proof (updated_field_len_min _ _ Hn) as Hpos.
  unfold sub. destruct s as [| c s].
  - unfold updated_field_len in Hn. by cbn in Hn.
  - cbn [sub_from]. rewrite match_here_updated, Hn.
    destruct n as [| n]; [lia |]. cbn [Nat.eqb app drop].
    replace (S n - 1) with n by lia. f_equal. apply sub_from_skip.
Qed.

Lemma sub_updated_miss (repl : str) c (s : str) :
  updated_field_len (c :: s) = None →
  sub T false updated_re repl (c :: s)
  = c :: sub T false updated_re repl s.
Proof.
  intros Hn. unfold sub. cbn [sub_from]. rewrite match_here_updated, Hn.
  f_equal. apply sub_from_prev.
Qed.

Lemma sub_updated_nil (repl : str) : sub T false updated_re repl [] = [].
Proof. unfold sub. cbn [sub_from]. by rewrite match_here_updated. Qed.

Lemma line_head_split (s : str) :
  ∃ r, s = line_head s ++ r ∧ (r = [] ∨ ∃ r', r = NL :: r').
Proof.
  induction s as [| c s (r & IH & Hr)]; [exists []; auto |].
  cbn [line_head]. destruct (not_nl c) eqn:Hc.
  - exists r. split; [| done]. cbn [app]. by rewrite <- IH.
  - exists (c :: s). split; [done |]. right. exists s.
    unfold not_nl in Hc. apply negb_false_iff, N.eqb_eq in Hc. by subst.
Qed.

Lemma line_head_plain (s : str) : Forall (λ c, not_nl c = true) (line_head s).
Proof.
  induction s as [| c s IH]; [constructor |].
  cbn [line_head]. destruct (not_nl c) eqn:Hc; by constructor.
Qed.

Lemma line_head_app (ts x : str) :
  Forall (λ c, not_nl c = true) ts →
  x = [] ∨ (∃ r, x = NL :: r) →
  line_head (ts ++ x) = ts.
Proof.
  intros Hts Hx. induction Hts as [| c ts Hc _ IH]; cbn [app line_head].
  - by destruct Hx as [-> | [r ->]].
  - by rewrite Hc, IH.
Qed.

Lemma starts_with_eq (m : str) : ∀ s : str,
  starts_with m s = true → s = m ++ drop (length m) s.
Proof.
  induction m as [| x m IH]; intros [| c s]; cbn [starts_with]; try done.
  intros [->%N.eqb_eq Hm]%andb_true_iff. cbn [app length drop].
  f_equal. by apply IH.
Qed.

Lemma lit_then_char_window (m : str) : ∀ a b b' : str,
  length m < length a →
  lit_then_char m (a ++ b) = lit_then_char m (a ++ b').
Proof.
  induction m as [| x m IH]; intros [| c a] b b'; cbn [length app lit_then_char];
    try lia; [done |].
  intros Hlen. f_equal. apply IH. lia.
Qed.

Lemma lit_then_char_self (m : str) c (x : str) :
  not_nl c = true → lit_then_char m (m ++ c :: x) = true.
Proof.
  intros Hc. induction m as [| y m IH]; cbn [app lit_then_char]; [done |].
  by rewrite N.eqb_refl, IH.
Qed.

Lemma lit_then_char_app (m : str) : ∀ q x : str,
  lit_then_char m q = true → lit_then_char m (q ++ x) = true.
Proof.
  induction m as [| y m IH]; intros [| c q] x; cbn [app lit_then_char];
    try done.
  intros [-> Hm]%andb_true_iff. cbn [andb]. by apply IH.
Qed.

(** A field cannot run across a newline. *)
Lemma lit_then_char_line (m : str) : ∀ l r : str,
  has_char NL m = false →
  lit_then_char m (l ++ NL :: r) = true → lit_then_char m l = true.
Proof.
  induction m as [| y m IH]; intros [| c l] r Hm; cbn [app lit_then_char];
    try done.
  - rewrite has_char_cons in Hm. apply orb_false_iff in Hm as [Hy _].
    rewrite N.eqb_sym in Hy. by rewrite Hy.
  - rewrite has_char_cons in Hm. apply orb_false_iff in Hm as [_ Hm].
    intros [-> Hl]%andb_true_iff. cbn [andb]. by apply (IH l r).
Qed.

Lemma updated_field_shape (s : str) (n : nat) :
  updated_field_len s = Some n →
  ∃ body tl,
    s = UPDATED ++ body ++ tl
    ∧ body ≠ []
    ∧ n = length UPDATED + length body
    ∧ (tl = [] ∨ ∃ r, tl = NL :: r).
Proof.
  unfold updated_field_len. rewrite lit_then_char_spec.
  destruct (starts_with UPDATED s) eqn:Hlit; [| done]. cbn [andb].
  destruct (drop (length UPDATED) s) as [| c r] eqn:Hdrop; [done |].
  destruct (not_nl c) eqn:Hc; [| done]. intros [= <-].
  destruct (line_head_split (c :: r)) as (tl & Hsplit & Htl).
  exists (line_head (c :: r)), tl. split; [| split; [| split]]; try done.
  - rewrite <- Hsplit, <- Hdrop. by apply starts_with_eq.
  - cbn [line_head]. by rewrite Hc.
Qed.

Section NewTimestamp.
(** The text that replaces a field: the literal and a timestamp [ts] that
    is not empty and has no newline. *)
Variables (t0 : char) (ts' : str).
Hypothesis t0_plain : not_nl t0 = true.
Hypothesis ts_plain : Forall (λ c, not_nl c = true) ts'.
Let ts : str := t0 :: ts'.
Let new_field : str := UPDATED ++ ts.

Lemma sub_updated_window (s : str) : ∀ pfx : str,
  lit_then_char UPDATED (pfx ++ sub T false updated_re new_field s)
  = lit_then_char UPDATED (pfx ++ s).
Proof using t0_plain.
  induction s as [| c s IH]; intros pfx.
  - by rewrite sub_updated_nil.
  - destruct (updated_field_len (c :: s)) as [n |] eqn:Hlen.
    + rewrite (sub_updated_hit _ _ _ Hlen).
      destruct (updated_field_shape _ _ Hlen) as (body & tl & Hs & _).
      destruct pfx as [| p pfx].
      * cbn [app]. unfold new_field, ts. rewrite <- app_assoc. cbn [app].
        rewrite lit_then_char_self by done. symmetry.
        by apply updated_field_len_hit.
      * rewrite Hs. unfold new_field. rewrite <- !app_assoc.
        rewrite !(app_assoc (p :: pfx) UPDATED).
        apply lit_then_char_window. rewrite length_app. cbn [length]. lia.
    + rewrite (sub_updated_miss _ _ _ Hlen).
      change (pfx ++ c :: ?x) with (pfx ++ [c] ++ x).
      rewrite !(app_assoc pfx [c]). apply IH.
Qed.

(** After the substitution, the first field of the text is the new one. *)
Lemma search_sub_updated (s : str) : ∀ prev,
  has_updated_field s = true →
  search_from T false updated_re prev (sub T false updated_re new_field s)
  = Some {| m_text := new_field; m_caps := [] |}.
Proof using t0_plain ts_plain.
  induction s as [| c s IH]; intros prev Hhas.
  - by cbn in Hhas.
  - destruct (updated_field_len (c :: s)) as [n |] eqn:Hlen.
    + rewrite (sub_updated_hit _ _ _ Hlen).
      destruct (updated_field_shape _ _ Hlen) as (body & tl & Hs & _ & Hn & Htl).
      assert (Hdrop : drop n (c :: s) = tl).
      { rewrite Hs, Hn, app_assoc. apply drop_app_length'.
        by rewrite length_app. }
      rewrite Hdrop.
      set (X := sub T false updated_re new_field tl).
      assert (HX : X = [] ∨ ∃ r, X = NL :: r).
      { unfold X. destruct Htl as [-> | [r ->]].
        - left. apply sub_updated_nil.
        - right. rewrite sub_updated_miss by reflexivity. eauto. }
      rewrite search_from_updated. unfold updated_field_len.
      unfold new_field at 1 2 3. rewrite <- !app_assoc.
      unfold ts at 1. cbn [app].
      rewrite lit_then_char_self by done.
      rewrite drop_app_length.
      change (t0 :: ts' ++ X) with ((t0 :: ts') ++ X).
      rewrite line_head_app by (done || by constructor).
      f_equal. f_equal.
      change (UPDATED ++ (t0 :: ts') ++ X) with (UPDATED ++ ts ++ X).
      rewrite app_assoc. fold new_field.
      rewrite <- length_app. fold new_field.
      apply take_app_length.
    + rewrite (sub_updated_miss _ _ _ Hlen).
      cbn [has_updated_field] in Hhas.
      assert (Hmiss : lit_then_char UPDATED (c :: s) = false).
      { destruct (lit_then_char UPDATED (c :: s)) eqn:Hl; [| done].
        apply updated_field_len_hit in Hl. rewrite Hlen in Hl. by destruct Hl. }
      rewrite Hmiss in Hhas. cbn [orb] in Hhas.
      rewrite search_from_updated.
      assert (Hnone : updated_field_len
                        (c :: sub T false updated_re new_field s) = None).
      { unfold updated_field_len.
        change (c :: sub T false updated_re new_field s)
          with ([c] ++ sub T false updated_re new_field s).
        rewrite sub_updated_window. cbn [app]. by rewrite Hmiss. }
      rewrite Hnone. by apply IH.
Qed.

End NewTimestamp.

End MatcherFacts.

(* ===================================================================== *)
(** * The "Updated" timestamp of the header                               *)
(* ===================================================================== *)

Lemma has_updated_field_here (s : str) :
  lit_then_char UPDATED s = true → has_updated_field s = true.
Proof. intros Hs. destruct s; cbn [has_updated_field]; by rewrite Hs. Qed.

Lemma has_updated_field_app_r (a b : str) :
  has_updated_field b = true → has_updated_field (a ++ b) = true.
Proof.
  intros Hb. induction a as [| c a IH]; [done |].
  cbn [app has_updated_field]. rewrite IH. apply orb_true_r.
Qed.

Lemma has_updated_field_app_l (a b : str) :
  has_updated_field a = true → has_updated_field (a ++ b) = true.
Proof.
  induction a as [| c a IH]; [by cbn |].
  cbn [app has_updated_field]. rewrite !orb_true_iff.
  intros [Hhere | Hlater]; [left | right; auto].
  by apply (lit_then_char_app UPDATED (c :: a) b).
Qed.

Lemma has_updated_field_join (ls : list str) (l : str) :
  l ∈ ls → has_updated_field l = true →
  has_updated_field (join [NL] ls) = true.
Proof.
  intros Hin Hl. induction ls as [| l' ls IH]; [inversion Hin |].
  destruct ls as [| l'' ls].
  - apply list_elem_of_singleton in Hin as ->. exact Hl.
  - rewrite join_cons by done. apply elem_of_cons in Hin as [-> | Hin].
    + by apply has_updated_field_app_l.
    + apply has_updated_field_app_r, has_updated_field_app_r. by apply IH.
Qed.

Lemma has_updated_field_line (l r : str) :
  has_updated_field (l ++ NL :: r) = true →
  has_updated_field l = true ∨ has_updated_field r = true.
Proof.
  induction l as [| c l IH]; cbn [app has_updated_field].
  - change (lit_then_char UPDATED (NL :: r)) with false. cbn [orb]. auto.
  - rewrite !orb_true_iff. intros [Hhere | Hlater].
    + left. left. by apply (lit_then_char_line UPDATED (c :: l) r).
    + destruct (IH Hlater); auto.
Qed.

Lemma has_updated_field_join_inv (ls : list str) :
  has_updated_field (join [NL] ls) = true →
  ∃ l, l ∈ ls ∧ has_updated_field l = true.
Proof.
  induction ls as [| l ls IH]; [by cbn |].
  destruct ls as [| l' ls].
  - intros Hl. exists l. split; [by left | done].
  - rewrite join_cons by done. cbn [app].
    intros [Hl | Hr]%has_updated_field_line.
    + exists l. split; [by left | done].
    + destruct (IH Hr) as (x & Hin & Hx). exists x. split; [by right | done].
Qed.

(** A line inserted among the lines of a document takes no field away. *)
Lemma has_updated_field_insert (content entry : str) (i : nat) :
  has_updated_field content = true →
  has_updated_field
    (join [NL] (list_insert_at i entry (split_lines content))) = true.
Proof.
  intros Hhas. rewrite <- (join_split_lines content) in Hhas.
  destruct (has_updated_field_join_inv _ Hhas) as (l & Hin & Hl).
  apply (has_updated_field_join _ l); [| done].
  unfold list_insert_at.
  rewrite <- (take_drop i (split_lines content)) in Hin.
  apply elem_of_app in Hin as [Hin | Hin]; apply elem_of_app; [by left |].
  right. by right.
Qed.

(** ** The timestamp text *)

Lemma uint_plain (d : Decimal.uint) :
  Forall (λ c, not_nl c = true)
         (map N_of_ascii (list_ascii_of_string (NilEmpty.string_of_uint d))).
Proof.
  induction d; cbn [NilEmpty.string_of_uint list_ascii_of_string map];
    constructor; done.
Qed.

Lemma digits_plain (n : N) : Forall (λ c, not_nl c = true) (digits n).
Proof. apply uint_plain. Qed.

Lemma pad2_plain (n : N) : Forall (λ c, not_nl c = true) (pad2 n).
Proof.
  unfold pad2. destruct (n <? 10)%N; [| apply digits_plain].
  apply Forall_app. split; [by repeat constructor | apply digits_plain].
Qed.

Lemma fmt_minutes_utc_plain (t : datetime) :
  Forall (λ c, not_nl c = true) (fmt_minutes_utc t).
Proof.
  unfold fmt_minutes_utc, fmt_date.
  repeat (apply Forall_app; split);
    try apply digits_plain; try apply pad2_plain; by repeat constructor.
Qed.

Lemma fmt_minutes_utc_shape (t : datetime) :
  ∃ t0 ts', fmt_minutes_utc t = t0 :: ts'
            ∧ not_nl t0 = true ∧ Forall (λ c, not_nl c = true) ts'.
Proof.
  pose proof (fmt_minutes_utc_plain t) as Hplain.
  destruct (fmt_minutes_utc t) as [| t0 ts'] eqn:Hfmt.
  - apply (f_equal length) in Hfmt. unfold fmt_minutes_utc in Hfmt.
    rewrite !length_app in Hfmt.
    change (length (u " UTC")) with 4 in Hfmt. cbn [length] in Hfmt. lia.
  - inversion Hplain; subst. eauto.
Qed.

(** The template carries the field. *)
Lemma template_has_updated_field (created : str) (t : datetime) :
  has_updated_field (template created (fmt_minutes_utc t)) = true.
Proof.
  destruct (fmt_minutes_utc_shape t) as (t0 & ts' & -> & Ht0 & _).
  unfold template. do 5 apply has_updated_field_app_r.
  change (u "**Updated:** ") with UPDATED.
  apply has_updated_field_here.
  rewrite <- app_comm_cons. by apply lit_then_char_self.
Qed.

(** ** What [_insert_entry] and [_update_timestamp] do to the world *)

Lemma insert_entry_present (section_type entry : str) (w : world)
    (content : str) :
  file w = Some content →
  _insert_entry section_type entry w
  = (Ok tt, set_file (text_after_insert section_type entry content) w).
Proof.
  intros Hfile.
  unfold _insert_entry, bind, path_exists, read_file, text_after_insert,
    append_file, write_file, set_file.
  rewrite Hfile, bool_decide_eq_true_2 by eauto. cbn [negb ret default].
  rewrite ?Hfile. cbn [default].
  destruct (SECTIONS !! section_type) as [marker |];
    [| by cbn beta; rewrite Hfile].
  destruct (negb (str_eqb marker []) && contains marker content);
    [| by cbn beta; rewrite Hfile].
  destruct (insert_in_section marker entry content); cbn beta;
    [done | by rewrite Hfile].
Qed.

Lemma insert_entry_absent (section_type entry : str) (w : world) :
  file w = None →
  _insert_entry section_type entry w
  = (Ok tt,
     {| file := Some (text_after_insert section_type entry
                        (template (fmt_date (clock w (reads w)))
                                  (fmt_minutes_utc (clock w (S (reads w))))));
        clock := clock w;
        reads := S (S (reads w)) |}).
Proof.
  intros Hfile.
  set (w0 := {| file := Some (template (fmt_date (clock w (reads w)))
                               (fmt_minutes_utc (clock w (S (reads w)))));
                clock := clock w; reads := S (S (reads w)) |}).
  pose proof (insert_entry_present section_type entry w0 _ eq_refl) as Hrun.
  unfold _insert_entry, bind, path_exists in *.
  rewrite Hfile, bool_decide_eq_false_2 by (by intros [? ?]).
  cbn [negb]. unfold _ensure_file_exists, bind, path_exists.
  rewrite Hfile, bool_decide_eq_false_2 by (by intros [? ?]).
  cbn [negb]. unfold _create_template, bind, now, write_file, set_file.
  cbn [file clock reads].
  change (file w0) with (Some (template (fmt_date (clock w (reads w)))
                                 (fmt_minutes_utc (clock w (S (reads w))))))
    in Hrun.
  rewrite bool_decide_eq_true_2 in Hrun by eauto. cbn [negb ret] in Hrun.
  exact Hrun.
Qed.

Lemma text_after_insert_field (section_type entry content : str) :
  has_updated_field content = true →
  has_updated_field (text_after_insert section_type entry content) = true.
Proof.
  intros Hhas. unfold text_after_insert.
  assert (Happ : has_updated_field (content ++ [NL] ++ entry) = true)
    by by apply has_updated_field_app_l.
  destruct (SECTIONS !! section_type) as [marker |]; [| done].
  destruct (negb (str_eqb marker []) && contains marker content); [| done].
  unfold insert_in_section.
  destruct (find_marker marker 0 (split_lines content)); [| done].
  cbn [default]. by apply has_updated_field_insert.
Qed.

Lemma update_timestamp_run (T : tables) (w : world) (content : str) :
  file w = Some content →
  _update_timestamp T w
  = (Ok tt,
     {| file := Some (sub T false updated_re
                          (UPDATED ++ fmt_minutes_utc (clock w (reads w)))
                          content);
        clock := clock w;
        reads := S (reads w) |}).
Proof.
  intros Hfile. unfold _update_timestamp, bind, path_exists, read_file.
  rewrite Hfile, bool_decide_eq_true_2 by eauto. cbn [negb].
  rewrite Hfile. reflexivity.
Qed.

(** An insertion followed by [_update_timestamp]: afterwards the first
    "Updated" field of the file reads the time that was taken last. *)
Lemma insert_then_update (T : tables) (section_type entry : str)
    (w w' : world) :
  match file w with
  | Some content => has_updated_field content = true
  | None => True
  end →
  bind (_insert_entry section_type entry) (λ _, _update_timestamp T) w
  = (Ok tt, w') →
  ∃ content',
    file w' = Some content'
    ∧ reads w < reads w'
    ∧ clock w' = clock w
    ∧ search T false updated_re content'
      = Some {| m_text := u "**Updated:** "
                          ++ fmt_minutes_utc (clock w (reads w' - 1));
                m_caps := [] |}.
Proof.
  intros Hfield. unfold bind.
  assert (Hins : ∃ c1 n,
             _insert_entry section_type entry w
             = (Ok tt, {| file := Some c1; clock := clock w; reads := n |})
             ∧ reads w ≤ n ∧ has_updated_field c1 = true).
  { destruct (file w) as [content |] eqn:Hfile.
    - exists (text_after_insert section_type entry content), (reads w).
      split; [by apply insert_entry_present |].
      split; [lia | by apply text_after_insert_field].
    - eexists _, _. split; [by apply insert_entry_absent |].
      split; [lia |].
      apply text_after_insert_field, template_has_updated_field. }
  destruct Hins as (c1 & n & -> & Hn & Hc1).
  rewrite (update_timestamp_run
             T {| file := Some c1; clock := clock w; reads := n |} c1 eq_refl).
  cbn [clock reads].
  intros [= <-]. cbn [file reads clock].
  eexists. split; [reflexivity |]. split; [lia |]. split; [reflexivity |].
  replace (S n - 1) with n by lia.
  destruct (fmt_minutes_utc_shape (clock w n)) as (t0 & ts' & -> & Ht0 & Hts).
  apply (search_sub_updated T t0 ts' Ht0 Hts c1 None Hc1).
Qed.

(** C3 (as the code has it).  Every accepted insertion of an error, a
    success or a decision into a document that has an "Updated" field (or
    into no document yet: the template has the field) leaves the first
    such field, the one of the header, reading the time of that write,
    which is the last time read during the call. *)
Theorem append_event_refreshes_updated (T : tables) (event : CommandResult)
    (event_type : EventType) (error_summary : option str)
    (files : option (list str)) (w w' : world) :
  event_type ≠ NOISE →
  match file w with
  | Some content => is_Some (search T false updated_re content)
  | None => True
  end →
  append_event T event event_type error_summary files w = (Ok tt, w') →
  ∃ content',
    file w' = Some content'
    ∧ reads w < reads w'
    ∧ search T false updated_re content'
      = Some {| m_text := u "**Updated:** "
                          ++ fmt_minutes_utc (clock w (reads w' - 1));
                m_caps := [] |}.
Proof.
  intros Hkind Hfield Hrun.
  assert (Hfield' : match file w with
                    | Some content => has_updated_field content = true
                    | None => True
                    end).
  { destruct (file w); [| done]. by apply (search_updated_some T _ None). }
  assert (Hgoal : ∀ section_type entry,
             bind (_insert_entry section_type entry)
                  (λ _, _update_timestamp T) w = (Ok tt, w') →
             ∃ content',
               file w' = Some content'
               ∧ reads w < reads w'
               ∧ search T false updated_re content'
                 = Some {| m_text := u "**Updated:** "
                                     ++ fmt_minutes_utc (clock w (reads w' - 1));
                           m_caps := [] |}).
  { intros section_type entry Hboth.
    destruct (insert_then_update T _ _ _ _ Hfield' Hboth)
      as (content' & ? & ? & _ & ?).
    eauto. }
  destruct event_type; [| | | done]; cbn [append_event] in Hrun.
  - by eapply Hgoal.
  - unfold bind at 1, lift in Hrun.
    destruct (_format_success_entry event files) as [entry | e]; [| done].
    by eapply Hgoal.
  - by eapply Hgoal.
Qed.

Lemma append_event_refreshes_updated_witness :
  ERROR ≠ NOISE
  ∧ is_Some (search ascii_tables false updated_re noon_template)
  ∧ ∃ content',
      file (append_event ascii_tables first_failure ERROR (Some (u "first"))
                         None (world_at noon_template half_past_one)).2
      = Some content'
      ∧ search ascii_tables false updated_re content'
        = Some {| m_text := u "**Updated:** 2024-03-09 13:30 UTC";
                  m_caps := [] |}.
Proof.
  split; [discriminate |]. split; [vm_compute; eauto |].
  destruct (append_event_refreshes_updated
              ascii_tables first_failure ERROR (Some (u "first")) None
              (world_at noon_template half_past_one)
              (append_event ascii_tables first_failure ERROR
                            (Some (u "first")) None
                            (world_at noon_template half_past_one)).2)
    as (content' & Hfile & _ & Hsearch).
  - discriminate.
  - vm_compute. eauto.
  - vm_compute. reflexivity.
  - exists content'. split; [exact Hfile |]. rewrite Hsearch.
    vm_compute. reflexivity.
Defined.

(** The claim as stated fails for a heartbeat: written at half past one
    into the template of noon, it leaves the header saying noon. *)
Lemma heartbeat_leaves_updated_stale :
  ∃ w' m,
    append_heartbeat session_stats_7 (world_at noon_template half_past_one)
    = (Ok tt, w')
    ∧ search ascii_tables false updated_re (default [] (file w')) = Some m
    ∧ m_text m = u "**Updated:** 2024-03-09 12:00 UTC"
    ∧ m_text m ≠ u "**Updated:** " ++ fmt_minutes_utc half_past_one.
Proof.
  eexists _, _. split; [vm_compute; reflexivity |].
  split; [vm_compute; reflexivity |].
  split; [vm_compute; reflexivity |].
  apply str_eqb_neq. vm_compute. reflexivity.
Qed.

(* ===================================================================== *)
(** * Further properties of the handoff updater                           *)
(* ===================================================================== *)

(** X1. [get_recent_errors] returns the empty list on every document and
    for every count, entries or not: it searches the text between the
    section marker and the first [##] that follows, and each entry title
    begins with [###]. *)
Theorem get_recent_errors_always_empty (T : tables) (count : Z) (w : world) :
  get_recent_errors T count w = (Ok [], w).
Proof. apply get_recent_errors_nil. Qed.
















(* ===================================================================== *)
(** * Further properties of the event filter                              *)
(* ===================================================================== *)

Lemma dedupe_sublist (files : list str) : ∀ seen : gset str,
  sublist (dedupe seen files) files.
Proof.
  induction files as [| g files IH]; intros seen; cbn [dedupe].
  - constructor.
  - case_bool_decide; [apply sublist_cons | apply sublist_skip]; apply IH.
Qed.


(** X7. The list [extract_file_context] returns is, for every outcome, a
    selection of the tokens its patterns found in the command, the error
    output and the output, kept in the order in which they were found:
    at most ten of them, none twice, each shorter than 200 characters. *)
Theorem file_context_selection (T : tables) (event : CommandResult) :
  sublist (extract_file_context T event)
          (candidate_files T (file_context_text event))
  ∧ length (extract_file_context T event) ≤ 10
  ∧ NoDup (extract_file_context T event)
  ∧ Forall (λ f, length f < 200) (extract_file_context T event).
Proof.
  split; [| apply extract_file_context_bounds].
  unfold extract_file_context, file_context_text.
  etrans; [apply sublist_take | apply dedupe_sublist].
Qed.



(** X9. For a command that exited with 0, the command line alone decides
    in three cases, whatever was printed: no word at all is NOISE; a first
    word (lower-cased) in the ignore set is NOISE, also when the command
    contains an always-capture phrase; otherwise a command whose
    lower-cased text contains an always-capture phrase anywhere is a
    SUCCESS, also when the output matches an error pattern. *)
Theorem classify_by_command_line (T : tables) (F : EventFilter)
    (event : CommandResult) :
  exit_code event = 0%Z →
  match split_ws (strip (command event)) with
  | [] => classify T F event = NOISE
  | first :: _ =>
    (lower T first ∈ IGNORE_COMMANDS F → classify T F event = NOISE)
    ∧ (lower T first ∉ IGNORE_COMMANDS F →
       ∀ phrase, phrase ∈ ALWAYS_CAPTURE F →
                 contains phrase (lower T (command event)) = true →
                 classify T F event = SUCCESS)
  end.
Proof.
  intros Hexit. unfold classify. rewrite Hexit. cbn [Z.eqb negb].
  destruct (split_ws (strip (command event))) as [| first rest]; [done |].
  split.
  - intros Hin. by rewrite bool_decide_eq_true_2.
  - intros Hnot phrase Hphrase Hsub. rewrite bool_decide_eq_false_2 by done.
    assert (Hex : existsb (λ p, contains p (lower T (command event)))
                    (elements (ALWAYS_CAPTURE F)) = true).
    { apply existsb_exists. exists phrase. split; [| done].
      apply list_elem_of_In, elem_of_elements, Hphrase. }
    by rewrite Hex.
Qed.

Lemma classify_by_command_line_witness :
  classify ascii_tables default_filter cmake_build = SUCCESS.
Proof.
  pose proof (classify_by_command_line ascii_tables default_filter
                cmake_build eq_refl) as Hrules.
  change (split_ws (strip (command cmake_build)))
    with [u "cmake"; u "--build"; u "."] in Hrules.
  destruct Hrules as [_ Halways].
  apply (Halways ltac:(vm_compute; set_solver) (u "make")).
  - vm_compute. set_solver.
  - vm_compute. reflexivity.
Defined.

(** X10. When the text a summary is taken from (the error output if it is
    not empty, the output otherwise) is empty or white space only,
    [extract_error_summary] returns [Exit code N]; a blank error output
    hides an output that has the message. *)
Theorem error_summary_blank_output (T : tables) (event : CommandResult) :
  strip (error_output event) = [] →
  extract_error_summary T event = exit_code_text event.
Proof.
  intros Hblank. unfold extract_error_summary.
  change (if negb (str_eqb (stderr event) [])
          then stderr event else stdout event) with (error_output event).
  destruct (str_eqb (error_output event) []); [reflexivity |].
  rewrite Hblank, split_lines_nil.
  replace (first_some (λ rg, first_some (summary_of_line T rg) [[]])
             priority_patterns) with (@None str)
    by (vm_compute; reflexivity).
  reflexivity.
Qed.

Lemma error_summary_blank_output_witness :
  extract_error_summary ascii_tables blank_stderr_failure
  = exit_code_text blank_stderr_failure.
Proof.
  apply (error_summary_blank_output ascii_tables blank_stderr_failure).
  vm_compute. reflexivity.
Defined.

(* ===================================================================== *)
(** * Properties of the session and of the hook                           *)
(* ===================================================================== *)

(** X11. A command that [ShadowSession.execute] classifies as NOISE leaves
    the handoff file as it was, with [force_log] or without: forcing gets
    the [on_event] callback called, with the kind NOISE, but no entry
    written.  The command is counted and remembered as the last one in
    either case. *)
Theorem session_execute_noise (T : tables) (X : Type)
    (on_event : option (CommandResult → EventType → M X unit))
    (command : str) (timeout : Z) (cwd : option str) (force_log : bool)
    (run : run_outcome) (duration_ms : Z) (s : session_state) (x : X) :
  let result :=
    command_result command timeout (str_or cwd (project_path (fst s))) run
                   duration_ms (clock (snd s) (reads (snd s))) in
  classify T default_filter result = NOISE →
  ∃ r s' x',
    session_execute T X on_event command timeout cwd force_log run
                    duration_ms (s, x) = (r, (s', x'))
    ∧ file (snd s') = file (snd s)
    ∧ _last_command (fst s') = Some result
    ∧ _command_count (fst s') = (_command_count (fst s) + 1)%Z
    ∧ (r, x') = match on_event with
                | Some notify =>
                  if force_log
                  then match notify result NOISE x with
                       | (Ok _, x1) => (Ok result, x1)
                       | (Raise e, x1) => (Raise e, x1)
                       end
                  else (Ok result, x)
                | None => (Ok result, x)
                end.
Proof.
  destruct s as [sh w]. intros result Hnoise. cbn [fst snd] in result.
  unfold session_execute, bind, with_callback, shadow_execute, on_world, now.
  cbn [fst snd]. fold result. rewrite Hnoise.
  cbn [EventType_eqb negb orb append_event event_context fst snd].
  destruct force_log; cbn [orb].
  - unfold ret at 1. cbn [fst snd]. destruct on_event as [notify |].
    + unfold callback. cbn [fst snd].
      destruct (notify result NOISE x) as [[[] | e] x1];
        eexists _, _, _; repeat split.
    + eexists _, _, _; repeat split.
  - eexists _, _, _; repeat split. by destruct on_event.
Qed.

Lemma session_execute_noise_witness :
  ∃ r s' x',
    session_execute ascii_tables (list EventType) (Some record_kind)
      (u "ls -la") 300 None true (Completed (u "total 0") [] 0) 12
      ((fresh_shadow, world_with noon_template), []) = (r, (s', x'))
    ∧ file (snd s') = Some noon_template
    ∧ x' = [NOISE].
Proof.
  destruct (session_execute_noise ascii_tables (list EventType)
              (Some record_kind) (u "ls -la") 300 None true
              (Completed (u "total 0") [] 0) 12
              (fresh_shadow, world_with noon_template) [])
    as (r & s' & x' & Hrun & Hfile & _ & _ & Hcall).
  - vm_compute. reflexivity.
  - exists r, s', x'. split; [exact Hrun |]. split; [exact Hfile |].
    cbn in Hcall. by injection Hcall.
Defined.

(** X12. [log_command] on an outcome classified as NOISE writes no entry.
    Without [--force] it does not touch the file, and does not create it;
    with [--force] the updater is created, which writes the template when
    there is no file, and that is all. *)
Theorem log_command_noise (T : tables) (project_path : str) (force : bool)
    (command : str) (out err : option str) (code : Z) (duration : option Z)
    (dir : option str) (w : world) :
  classify T default_filter
    (hook_result project_path command out err code duration dir
                 (clock w (reads w))) = NOISE →
  ∃ w', log_command T project_path force command out err code duration dir w
        = (Ok tt, w')
        ∧ file w' = if force then Some (document (snd (now w))) else file w.
Proof.
  intros Hnoise. unfold log_command, bind, now at 1. rewrite Hnoise.
  cbn [EventType_eqb negb orb]. destruct force.
  - cbn [append_event event_context fst snd].
    unfold _ensure_file_exists, bind, path_exists, document, now.
    cbn [file clock reads snd].
    destruct (file w) as [content |] eqn:Hfile.
    + rewrite bool_decide_eq_true_2 by eauto. cbn [negb].
      eexists. split; reflexivity.
    + rewrite bool_decide_eq_false_2 by (by intros [? ?]). cbn [negb].
      eexists. split; [reflexivity |]. reflexivity.
  - eexists. split; reflexivity.
Qed.

Lemma log_command_noise_witness :
  ∃ w', log_command ascii_tables (u "/srv/app") true (u "pwd")
          (Some (u "/srv/app")) None 0 None None (world_with noon_template)
        = (Ok tt, w')
        ∧ file w' = Some noon_template.
Proof.
  destruct (log_command_noise ascii_tables (u "/srv/app") true (u "pwd")
              (Some (u "/srv/app")) None 0 None None
              (world_with noon_template)) as (w' & Hrun & Hfile).
  - vm_compute. reflexivity.
  - exists w'. split; [exact Hrun |]. rewrite Hfile. vm_compute.
    reflexivity.
Defined.

Lemma session_tick (hb : HeartbeatService session_state)
    (sh : TerminalShadow) (w : world) :
  session_service hb →
  _emit_heartbeat session_state session_clock (hb, (sh, w))
  = try_pass session_state
      (env session_state
         (on_world
            (append_heartbeat
               (dict_update
                  (base_snapshot session_state session_clock hb (sh, w))
                  (stats_of sh
                     (format_hms
                        (whole_seconds_between
                           (clock w (2 + reads w))
                           (shadow_session_start sh))))))))
      (incr_count session_state hb, (sh, later 3 w)).
Proof.
  intros [Hprovider Hsink].
  rewrite emit_heartbeat_unfold. unfold bind, call_provider, call_sink.
  cbn [get_stats on_heartbeat incr_count]. rewrite Hprovider, Hsink.
  reflexivity.
Qed.

(** X13. In a session, a heartbeat that comes before the first command
    writes nothing: the shadow reports [None] as its last command, the
    updater fails on it with [TypeError], and the service swallows the
    failure.  The tick is counted; the file is as it was, and is not
    created when it was missing. *)
Theorem session_heartbeat_before_first_command
    (hb : HeartbeatService session_state) (s : session_state) :
  session_service hb →
  _last_command (fst s) = None →
  ∃ hb' s',
    _emit_heartbeat session_state session_clock (hb, s) = (Ok tt, (hb', s'))
    ∧ _heartbeat_count hb' = (_heartbeat_count hb + 1)%Z
    ∧ fst s' = fst s
    ∧ file (snd s') = file (snd s).
Proof.
  destruct s as [sh w]. cbn [fst snd]. intros Hwired Hnone.
  eexists _, _. split.
  { etrans; [exact (session_tick hb sh w Hwired) |].
    unfold try_pass, env, on_world, append_heartbeat, bind, now, lift,
      heartbeat_entry, dict_get, dict_update, stats_of.
    cbn [fst snd]. rewrite Hnone.
    erewrite lookup_union_Some_l by reflexivity.
    cbn [default py_slice100]. reflexivity. }
  cbn [fst snd file incr_count _heartbeat_count later]. done.
Qed.

Lemma session_heartbeat_before_first_command_witness :
  ∃ hb' s',
    _emit_heartbeat session_state session_clock
      (wired_service, (fresh_shadow, world_with noon_template))
    = (Ok tt, (hb', s'))
    ∧ _heartbeat_count hb' = 1%Z
    ∧ fst s' = fresh_shadow
    ∧ file (snd s') = Some noon_template.
Proof.
  apply (session_heartbeat_before_first_command wired_service
           (fresh_shadow, world_with noon_template)).
  - split; reflexivity.
  - reflexivity.
Defined.




(** X15. [ShadowSession.start] with the heartbeat enabled creates a
    service wired to the shadow's statistics and the updater's heartbeat
    entry and starts it: the service is running, its interval is the
    configured minutes times 60, nothing has been counted, the file is
    untouched and the clock has been read twice, the second reading being
    the session start.  With the heartbeat disabled it does nothing. *)
Theorem session_start_service (interval_minutes : Z) (s : session_state) :
  (∃ hb,
     session_start true interval_minutes s
     = (Ok (Some hb), (fst s, later 2 (snd s)))
     ∧ session_service hb
     ∧ _running hb = true
     ∧ interval hb = (interval_minutes * 60)%Z
     ∧ _heartbeat_count hb = 0%Z
     ∧ _session_start hb = clock (snd s) (1 + reads (snd s)))
  ∧ session_start false interval_minutes s = (Ok None, s).
Proof.
  split; [| reflexivity]. destruct s as [sh w]. eexists.
  split; [reflexivity |]. repeat split.
Qed.

(* ===================================================================== *)
(** * Further properties of the heartbeat service                         *)
(* ===================================================================== *)

Section HeartbeatLifecycle.
Variable E : Type.
Variable clock_now : E → datetime * E.

(** X16. Starting and stopping.  [start] on a running service changes
    nothing and does not read the clock; on a stopped one it reads the
    clock once, takes the reading as the new session start and keeps the
    heartbeat count.  [stop] clears the running flag only, a second
    [stop] changes nothing, and the loop of a stopped service emits no
    heartbeat, however long it is given. *)
Theorem heartbeat_start_stop (hb : HeartbeatService E) (e : E) (n : nat) :
  (if _running hb
   then start E clock_now (hb, e) = (Ok tt, (hb, e))
   else ∃ hb',
       start E clock_now (hb, e) = (Ok tt, (hb', (clock_now e).2))
       ∧ _running hb' = true
       ∧ _session_start hb' = (clock_now e).1
       ∧ _heartbeat_count hb' = _heartbeat_count hb
       ∧ get_stats hb' = get_stats hb
       ∧ on_heartbeat hb' = on_heartbeat hb)
  ∧ stop E (hb, e) = (Ok tt, (with_running E false hb, e))
  ∧ stop E (with_running E false hb, e)
    = (Ok tt, (with_running E false hb, e))
  ∧ _run_loop E clock_now n (with_running E false hb, e)
    = (Ok tt, (with_running E false hb, e)).
Proof.
  split; [| split; [| split]].
  - unfold start, bind, self. cbn [fst snd].
    destruct (_running hb); [reflexivity |].
    eexists. split; [reflexivity |]. repeat split.
  - reflexivity.
  - reflexivity.
  - destruct n; reflexivity.
Qed.

End HeartbeatLifecycle.

Lemma hms_parts (h m s : Z) :
  (0 <= m < 60)%Z → (0 <= s < 60)%Z →
  ((3600 * h + 60 * m + s) / 3600 = h
   ∧ ((3600 * h + 60 * m + s) mod 3600) / 60 = m
   ∧ ((3600 * h + 60 * m + s) mod 3600) mod 60 = s)%Z.
Proof.
  intros Hm Hs.
  assert (Hq : ((3600 * h + 60 * m + s) / 3600 = h)%Z).
  { symmetry. apply (Z.div_unique _ _ _ (60 * m + s)%Z); lia. }
  assert (Hr : ((3600 * h + 60 * m + s) mod 3600 = 60 * m + s)%Z).
  { symmetry. apply (Z.mod_unique _ _ h); lia. }
  rewrite Hr. split; [exact Hq |]. split.
  - symmetry. apply (Z.div_unique _ _ _ s); lia.
  - symmetry. apply (Z.mod_unique _ _ m); lia.
Qed.

(** X17. The two duration texts.  For a time of [h] hours, [m] minutes
    and [s] seconds the heartbeat service's [_get_duration] prints
    [{h}h {m}m] when [h] is positive (the seconds are dropped),
    [{m}m {s}s] under an hour, and [{s}s] under a minute, while the
    shadow's [session_duration] always prints [{h}h {m}m {s}s].  The
    division rounds down, so for a negative time [h] is negative and the
    service prints minutes and seconds only. *)
Theorem duration_texts (h m s : Z) :
  (0 <= m < 60)%Z → (0 <= s < 60)%Z →
  format_duration (3600 * h + 60 * m + s)
  = (if (0 <? h)%Z then str_of_Z h ++ u "h " ++ str_of_Z m ++ u "m"
     else if (0 <? m)%Z then str_of_Z m ++ u "m " ++ str_of_Z s ++ u "s"
     else str_of_Z s ++ u "s")
  ∧ format_hms (3600 * h + 60 * m + s)
    = str_of_Z h ++ u "h " ++ str_of_Z m ++ u "m " ++ str_of_Z s ++ u "s".
Proof.
  intros Hm Hs. destruct (hms_parts h m s Hm Hs) as (Hh & Hmin & Hsec).
  unfold format_duration, format_hms. cbv zeta.
  rewrite Hh, Hmin, Hsec. split; reflexivity.
Qed.

Lemma duration_texts_witness :
  format_duration 3725 = u "1h 2m" ∧ format_hms 3725 = u "1h 2m 5s".
Proof.
  destruct (duration_texts 1 2 5) as [Hd Hs]; [lia | lia |].
  split; [exact Hd | exact Hs].
Defined.

Lemma has_char_app c (a b : str) :
  has_char c (a ++ b) = has_char c a || has_char c b.
Proof. unfold has_char. apply existsb_app. Qed.

Lemma has_char_Forall c (s : str) :
  Forall (λ x, x ≠ c) s → has_char c s = false.
Proof.
  induction 1 as [| x s Hx _ IH]; [reflexivity |].
  by apply has_char_cons_false.
Qed.

Lemma uint_numeric (d : Decimal.uint) :
  Forall numeric
         (map N_of_ascii (list_ascii_of_string (NilEmpty.string_of_uint d))).
Proof.
  induction d; cbn [NilEmpty.string_of_uint list_ascii_of_string map];
    constructor; try done; right; vm_compute; split; discriminate.
Qed.

Lemma str_of_Z_numeric (n : Z) : Forall numeric (str_of_Z n).
Proof.
  unfold str_of_Z, NilEmpty.string_of_int.
  destruct (Z.to_int n) as [d | d];
    cbn [list_ascii_of_string map]; [apply uint_numeric |].
  constructor; [by left | apply uint_numeric].
Qed.

Lemma str_of_Z_without c (n : Z) :
  ¬ numeric c → has_char c (str_of_Z n) = false.
Proof.
  intros Hc. apply has_char_Forall.
  eapply Forall_impl; [apply str_of_Z_numeric |].
  intros x Hx ->. by apply Hc.
Qed.

Lemma search_lits_absent (T : tables) c (l : str) (r : regex) (s : str) :
  has_char c s = false →
  ∀ prev, search_from T false (Seq (lits (c :: l)) r) prev s = None.
Proof.
  induction s as [| x s IH]; intros Hno prev; cbn [search_from];
    unfold match_here; rewrite rmatch_lits_fail.
  - reflexivity.
  - reflexivity.
  - rewrite has_char_cons in Hno. apply orb_false_iff in Hno as [_ Hs].
    by apply IH.
  - rewrite has_char_cons in Hno. apply orb_false_iff in Hno as [Hx _].
    cbn [start_pos rest starts_with]. by rewrite Hx.
Qed.

Lemma first_some_none {A B} (f : A → option B) (l : list A) :
  (∀ a, a ∈ l → f a = None) → first_some f l = None.
Proof.
  induction l as [| a l IH]; intros Hnone; [reflexivity |].
  cbn [first_some]. rewrite (Hnone a) by left.
  apply IH. intros b Hb. apply Hnone. by right.
Qed.

Lemma summary_of_line_absent (T : tables) (p : string) (r : regex)
    (rs : list regex) (n : nat) (line : str) c (l : str) :
  u p = c :: l → has_char c line = false →
  summary_of_line T (seqs (lit p :: r :: rs), n) line = None.
Proof.
  intros Hp Hno. unfold summary_of_line, search, lit. cbn [fst seqs].
  rewrite Hp. by rewrite search_lits_absent.
Qed.

Lemma timeout_text_without c (timeout : Z) :
  ¬ numeric c →
  has_char c (u "Command timed out after s") = false →
  has_char c (timeout_text timeout) = false.
Proof.
  intros Hnum Hc. unfold timeout_text.
  rewrite !has_char_app, (str_of_Z_without c timeout Hnum).
  change (u "Command timed out after s")
    with (u "Command timed out after " ++ u "s") in Hc.
  rewrite has_char_app in Hc. apply orb_false_iff in Hc as [-> ->].
  reflexivity.
Qed.

Lemma timeout_text_head (timeout : Z) :
  timeout_text timeout
  = ch "C" :: (u "ommand timed out after " ++ str_of_Z timeout ++ u "s").
Proof.
  unfold timeout_text.
  replace (u "Command timed out after ")
    with (ch "C" :: u "ommand timed out after ")
    by (vm_compute; reflexivity).
  symmetry. apply app_comm_cons.
Qed.

Lemma timeout_text_last (timeout : Z) :
  timeout_text timeout
  = (u "Command timed out after " ++ str_of_Z timeout) ++ [ch "s"].
Proof.
  unfold timeout_text.
  replace (u "s") with [ch "s"] by (vm_compute; reflexivity).
  by rewrite app_assoc.
Qed.

Lemma error_summary_timeout_text (T : tables) (event : CommandResult)
    (timeout : Z) :
  stderr event = timeout_text timeout →
  extract_error_summary T event = take 200 (timeout_text timeout).
Proof.
  intros Hstderr.
  pose proof (timeout_text_head timeout) as Hhead.
  assert (Hstrip : strip (timeout_text timeout) = timeout_text timeout).
  { eapply strip_fixed;
      [apply timeout_text_head | apply timeout_text_last
       | vm_compute; reflexivity | vm_compute; reflexivity]. }
  assert (Hwithout : ∀ c, (c < 45)%N ∨ (57 < c)%N →
            has_char c (u "Command timed out after s") = false →
            has_char c (timeout_text timeout) = false).
  { intros c Hc. apply timeout_text_without. unfold numeric. lia. }
  assert (Hnonempty : str_eqb (timeout_text timeout) [] = false)
    by (by rewrite Hhead).
  unfold extract_error_summary. rewrite Hstderr, Hnonempty.
  cbn [negb]. rewrite Hnonempty, Hstrip.
  rewrite split_lines_single
    by (apply Hwithout; [left; vm_compute; reflexivity
                        | vm_compute; reflexivity]).
  rewrite first_some_none.
  - cbn [first_some]. unfold first_long_line.
    rewrite Hstrip, Hnonempty. cbn [negb andb].
    replace (5 <? length (timeout_text timeout))%nat with true;
      [reflexivity |].
    symmetry. apply Nat.ltb_lt. rewrite Hhead. cbn [length].
    rewrite length_app.
    replace (length (u "ommand timed out after ")) with 23
      by (vm_compute; reflexivity).
    lia.
  - intros rg Hin. cbn [first_some]. unfold priority_patterns in Hin.
    assert (Hline : summary_of_line T rg (timeout_text timeout) = None);
      [| by rewrite Hline].
    repeat (apply elem_of_cons in Hin as [-> | Hin]);
      [.. | by apply elem_of_nil in Hin];
      (eapply summary_of_line_absent;
       [vm_compute; reflexivity
       | apply Hwithout; [right; vm_compute; reflexivity
                         | vm_compute; reflexivity]]).
Qed.

(** X18. A command that runs into its timeout is recorded with exit code
    -1 and so classified as an ERROR by every filter, and its error
    summary is the text [Command timed out after {timeout}s] (cut to 200
    characters): none of the summary patterns can match that text. *)
Theorem timed_out_command (T : tables) (F : EventFilter)
    (command : str) (timeout : Z) (working_dir : str) (duration_ms : Z)
    (t : datetime) :
  let result :=
    command_result command timeout working_dir TimeoutExpired duration_ms t
  in
  classify T F result = ERROR
  ∧ extract_error_summary T result = take 200 (timeout_text timeout).
Proof.
  intros result. split.
  - unfold classify. reflexivity.
  - by apply error_summary_timeout_text.
Qed.

(* ===================================================================== *)
(** * The first entry of a new document                                   *)
(* ===================================================================== *)





(* ===================================================================== *)
(** * Refreshing the timestamp again                                      *)
(* ===================================================================== *)

Lemma updated_field_len_new (t0 : char) (ts' x : str) :
  not_nl t0 = true →
  Forall (λ c, not_nl c = true) ts' →
  x = [] ∨ (∃ r, x = NL :: r) →
  updated_field_len ((UPDATED ++ t0 :: ts') ++ x)
  = Some (length (UPDATED ++ t0 :: ts')).
Proof.
  intros Ht0 Hts Hx. unfold updated_field_len.
  rewrite <- app_assoc. cbn [app].
  rewrite lit_then_char_self by done.
  rewrite drop_app_length.
  change (t0 :: ts' ++ x) with ((t0 :: ts') ++ x).
  rewrite (line_head_app (t0 :: ts') x); [| by constructor | done].
  by rewrite length_app.
Qed.

Lemma sub_updated_line_end (T : tables) (repl tl : str) :
  tl = [] ∨ (∃ r, tl = NL :: r) →
  sub T false updated_re repl tl = []
  ∨ ∃ r, sub T false updated_re repl tl = NL :: r.
Proof.
  intros [-> | [r ->]].
  - left. apply sub_updated_nil.
  - right. rewrite sub_updated_miss by reflexivity. eauto.
Qed.

Lemma sub_updated_twice (T : tables) (a : char) (a' : str) (b : char)
    (b' : str) :
  not_nl a = true → Forall (λ c, not_nl c = true) a' →
  not_nl b = true → Forall (λ c, not_nl c = true) b' →
  ∀ (n : nat) (s : str),
    length s ≤ n →
    sub T false updated_re (UPDATED ++ b :: b')
        (sub T false updated_re (UPDATED ++ a :: a') s)
    = sub T false updated_re (UPDATED ++ b :: b') s.
Proof.
  intros Ha Ha' Hb Hb'. induction n as [| n IH]; intros s Hlen.
  - destruct s; [| cbn in Hlen; lia]. by rewrite !sub_updated_nil.
  - destruct s as [| c s]; [by rewrite !sub_updated_nil |].
    destruct (updated_field_len (c :: s)) as [k |] eqn:Hfield.
    + rewrite !(sub_updated_hit T _ _ _ Hfield).
      destruct (updated_field_shape _ _ Hfield)
        as (body & tl & Hs & Hbody & Hk & Htl).
      assert (Hdrop : drop k (c :: s) = tl).
      { rewrite Hs, Hk, app_assoc. apply drop_app_length'.
        by rewrite length_app. }
      rewrite Hdrop.
      pose proof (sub_updated_line_end T (UPDATED ++ a :: a') tl Htl) as Hend.
      rewrite (sub_updated_hit T _ _ _
                 (updated_field_len_new a a' _ Ha Ha' Hend)).
      rewrite drop_app_length. f_equal. apply IH.
      apply (f_equal length) in Hs. rewrite !length_app in Hs.
      cbn [length] in Hs, Hlen.
      assert (0 < length UPDATED) by (vm_compute; lia). lia.
    + rewrite !(sub_updated_miss T _ _ _ Hfield).
      assert (Hmiss : updated_field_len
                        (c :: sub T false updated_re (UPDATED ++ a :: a') s)
                      = None).
      { unfold updated_field_len in *.
        change (c :: sub T false updated_re (UPDATED ++ a :: a') s)
          with ([c] ++ sub T false updated_re (UPDATED ++ a :: a') s).
        rewrite (sub_updated_window T a a' Ha s [c]). cbn [app].
        by destruct (lit_then_char UPDATED (c :: s)). }
      rewrite (sub_updated_miss T _ _ _ Hmiss). f_equal. apply IH.
      cbn [length] in Hlen. lia.
Qed.

(** X20. Refreshing the timestamp twice leaves the text that the second
    refresh alone would have left: each [_update_timestamp] rewrites the
    same fields, up to the end of their lines, so nothing of the first
    refresh stays and the text does not grow. *)
Theorem update_timestamp_twice (T : tables) (w : world) :
  ∃ w1 w2,
    _update_timestamp T w = (Ok tt, w1)
    ∧ _update_timestamp T w1 = (Ok tt, w2)
    ∧ file w2 = file (snd (_update_timestamp T (later 1 w))).
Proof.
  destruct (file w) as [content |] eqn:Hfile.
  - set (c1 := sub T false updated_re
                   (UPDATED ++ fmt_minutes_utc (clock w (reads w))) content).
    set (w1 := {| file := Some c1; clock := clock w;
                  reads := S (reads w) |}).
    exists w1. eexists.
    split; [exact (update_timestamp_run T w content Hfile) |].
    split; [exact (update_timestamp_run T w1 c1 eq_refl) |].
    rewrite (update_timestamp_run T (later 1 w) content Hfile).
    cbn [snd file clock reads later Nat.add w1]. unfold c1.
    destruct (fmt_minutes_utc_shape (clock w (reads w)))
      as (a & a' & -> & Ha & Ha').
    destruct (fmt_minutes_utc_shape (clock w (S (reads w))))
      as (b & b' & -> & Hb & Hb').
    f_equal. by eapply sub_updated_twice.
  - assert (Hskip : ∀ v, file v = None → _update_timestamp T v = (Ok tt, v)).
    { intros v Hv. unfold _update_timestamp, bind, path_exists.
      rewrite Hv, bool_decide_eq_false_2 by (by intros [? ?]).
      reflexivity. }
    exists w, w. rewrite !Hskip by done. by rewrite Hfile.
Qed.

(* ===================================================================== *)
(** * The error summary is a single line                                  *)
(* ===================================================================== *)

Lemma one_line_has_char (s : str) : has_char NL s = false ↔ one_line s.
Proof.
  unfold one_line, not_nl. induction s as [| c s IH].
  - split; [constructor | reflexivity].
  - rewrite has_char_cons, orb_false_iff, Forall_cons, IH, negb_true_iff.
    by rewrite (N.eqb_sym NL c).
Qed.

Lemma one_line_lstrip (s : str) : one_line s → one_line (lstrip s).
Proof.
  unfold one_line. induction 1 as [| c s Hc Hs IH]; cbn [lstrip]; [constructor |].
  destruct (is_space c); [exact IH | by constructor].
Qed.

Lemma one_line_rev (s : str) : one_line s → one_line (rev s).
Proof.
  unfold one_line. rewrite !Forall_forall. intros Hs c Hc. apply Hs.
  by apply list_elem_of_In, in_rev, list_elem_of_In.
Qed.

Lemma one_line_strip (s : str) : one_line s → one_line (strip s).
Proof.
  intros Hs. unfold strip, rstrip.
  by apply one_line_lstrip, one_line_rev, one_line_lstrip, one_line_rev.
Qed.

Section OneLine.
Variable T : tables.
Variable ic : bool.

(** A continuation that keeps positions free of newlines. *)
Let keeps (k : pos → option pos) : Prop :=
  ∀ p q, one_line_pos p → k p = Some q → one_line_pos q.

Lemma one_keeps (ok : char → bool) (k : pos → option pos) :
  keeps k → keeps (λ p, one ok p k).
Proof.
  intros Hk p q [Hrest Hcaps]. unfold one.
  destruct (rest p) as [| c s] eqn:Hp; [done |].
  destruct (ok c); [| done]. apply Hk. split; [| exact Hcaps].
  cbn [advance rest]. by inversion Hrest.
Qed.

Lemma star_loop_keeps (body : pos → (pos → option pos) → option pos)
    (k : pos → option pos) :
  (∀ k', keeps k' → keeps (λ p, body p k')) →
  keeps k → ∀ fuel, keeps (star_loop body k fuel).
Proof.
  intros Hbody Hk. induction fuel as [| f IH]; [exact Hk |].
  intros p q Hp. cbn [star_loop].
  destruct (body p _) as [q' |] eqn:Hround.
  - intros [= <-]. revert Hround. apply (Hbody _) with (p := p); [| done].
    intros p' q'' Hp'. destruct (_ <? _); [apply IH; done | done].
  - by apply Hk.
Qed.

Lemma rep_loop_keeps (body : pos → (pos → option pos) → option pos)
    (k : pos → option pos) (lo : nat) :
  (∀ k', keeps k' → keeps (λ p, body p k')) →
  keeps k → ∀ left done, keeps (rep_loop body k lo done left).
Proof.
  intros Hbody Hk. induction left as [| l IH]; intros done p q Hp;
    cbn [rep_loop].
  - destruct (lo <=? done); [by apply Hk | done].
  - destruct (body p _) as [q' |] eqn:Hround.
    + intros [= <-]. revert Hround. apply (Hbody _) with (p := p); [| done].
      apply IH.
    + destruct (lo <=? done); [by apply Hk | done].
Qed.

Lemma rmatch_keeps (r : regex) :
  ∀ k, keeps k → keeps (λ p, rmatch T ic r p k).
Proof.
  induction r as [| c | | neg items | r1 IH1 r2 IH2 | r1 IH1 r2 IH2
                  | r IH | lo hi r IH | i r IH | |];
    intros k Hk; cbn [rmatch].
  - exact Hk.
  - by apply one_keeps.
  - by apply one_keeps.
  - by apply one_keeps.
  - apply IH1. by apply IH2.
  - intros p q Hp. destruct (rmatch T ic r1 p k) as [q' |] eqn:Hfirst.
    + intros [= <-]. by eapply (IH1 k Hk p).
    + by apply (IH2 k Hk p).
  - intros p q Hp. by apply (star_loop_keeps _ k IH Hk).
  - intros p q Hp. by apply (rep_loop_keeps _ k lo IH Hk).
  - intros p q Hp. apply (IH _) with (p := p); [| done].
    intros p' q' [Hrest Hcaps]. apply Hk. split; [exact Hrest |].
    cbn [set_cap caps]. constructor; [| exact Hcaps].
    cbn [snd]. apply Forall_take, Hp.
  - intros p q Hp. destruct (before p); [done | by apply Hk].
  - intros p q Hp. destruct (xorb _ _); [by apply Hk | done].
Qed.

Lemma search_from_one_line (r : regex) (s : str) : ∀ prev m,
  one_line s →
  search_from T ic r prev s = Some m →
  Forall (λ it, one_line (snd it)) (m_caps m).
Proof.
  induction s as [| c s IH]; intros prev m Hs; cbn [search_from];
    unfold match_here;
    destruct (rmatch T ic r (start_pos prev _) Some) as [q |] eqn:Hq.
  - intros [= <-]. cbn [m_caps].
    eapply (rmatch_keeps r Some); [by intros ? ? ? [= <-] | | exact Hq].
    split; [exact Hs | constructor].
  - done.
  - intros [= <-]. cbn [m_caps].
    eapply (rmatch_keeps r Some); [by intros ? ? ? [= <-] | | exact Hq].
    split; [exact Hs | constructor].
  - apply IH. by inversion Hs.
Qed.

End OneLine.

Lemma get_cap_one_line (i : nat) (cs : list (nat * str)) (txt : str) :
  Forall (λ it, one_line (snd it)) cs →
  get_cap i cs = Some txt → one_line txt.
Proof.
  induction 1 as [| [j t] cs Ht _ IH]; cbn [get_cap]; [done |].
  destruct (i =? j)%nat; [by intros [= <-] | exact IH].
Qed.

Lemma summary_of_line_one_line (T : tables) (rg : regex * nat)
    (line s : str) :
  one_line line → summary_of_line T rg line = Some s → one_line s.
Proof.
  intros Hline. unfold summary_of_line, search. destruct rg as [r [| i]];
    cbn [fst snd];
    destruct (search_from T false r None line) as [m |] eqn:Hm; try done.
  - change (0 <? 0)%nat with false. cbn iota. intros [= <-].
    by apply one_line_strip.
  - change (0 <? S i)%nat with true. cbn iota. intros [= <-].
    apply one_line_strip. cbn [m_group].
    destruct (get_cap (S i) (m_caps m)) as [txt |] eqn:Hcap; [| constructor].
    cbn [default]. eapply get_cap_one_line; [| exact Hcap].
    by eapply search_from_one_line.
Qed.

Lemma first_some_Some {A B} (f : A → option B) (l : list A) (b : B) :
  first_some f l = Some b → ∃ a, a ∈ l ∧ f a = Some b.
Proof.
  induction l as [| a l IH]; cbn [first_some]; [done |].
  destruct (f a) as [b' |] eqn:Ha.
  - intros [= <-]. exists a. split; [by left | done].
  - intros (a' & Hin & Hf)%IH. exists a'. split; [by right | done].
Qed.

Lemma exit_code_text_one_line (event : CommandResult) :
  one_line (exit_code_text event).
Proof.
  unfold exit_code_text. apply Forall_app. split.
  - apply one_line_has_char. vm_compute. reflexivity.
  - apply one_line_has_char, str_of_Z_without. unfold numeric.
    intros [Hc | Hc]; [discriminate | vm_compute in Hc].
    destruct Hc as [Hc _]. by apply Hc.
Qed.

(** X21. The summary [extract_error_summary] returns never contains a
    newline, whatever the outcome: it is cut from one line of the output,
    or it is the text [Exit code N]. *)
Theorem error_summary_single_line (T : tables) (event : CommandResult) :
  has_char NL (extract_error_summary T event) = false.
Proof.
  apply one_line_has_char. unfold extract_error_summary.
  set (output := if negb (str_eqb (stderr event) [])
                 then stderr event else stdout event).
  destruct (str_eqb output []); [apply exit_code_text_one_line |].
  assert (Hlines : ∀ l, l ∈ split_lines (strip output) → one_line l).
  { intros l Hl. apply one_line_has_char.
    by eapply Forall_forall in Hl; [| apply split_lines_no_nl]. }
  destruct (first_some _ priority_patterns) as [s |] eqn:Hfound.
  - apply first_some_Some in Hfound as (rg & _ & Hrg).
    apply first_some_Some in Hrg as (l & Hl & Hs).
    eapply summary_of_line_one_line; [apply Hlines, Hl | exact Hs].
  - destruct (first_some first_long_line _) as [s |] eqn:Hlong;
      [| apply exit_code_text_one_line].
    apply first_some_Some in Hlong as (l & Hl & Hs).
    unfold first_long_line in Hs.
    destruct (negb _ && _); [| done]. injection Hs as <-.
    apply Forall_take, one_line_strip, Hlines, Hl.
Qed.

(* ===================================================================== *)
(** * Properties of the configuration                                     *)
(* ===================================================================== *)

Lemma to_dict_sections (c : Config.ShadowConfig) :
  ∃ project capture heartbeat output llm,
    Config.section (Config.to_dict c) "project" = Ok (Some project)
    ∧ Config.section (Config.to_dict c) "capture" = Ok (Some capture)
    ∧ Config.section (Config.to_dict c) "heartbeat" = Ok (Some heartbeat)
    ∧ Config.section (Config.to_dict c) "output" = Ok (Some output)
    ∧ Config.section (Config.to_dict c) "llm" = Ok (Some llm)
    ∧ project !! u "name" = Some (Config.project_name c)
    ∧ project !! u "path" = Some (Config.project_path c)
    ∧ project !! u "handoff" = Some (Config.handoff_file c)
    ∧ capture !! u "ignore_commands"
      = Some (Config.CList (elements (Config.ignore_commands c)))
    ∧ capture !! u "capture_all_errors" = Some (Config.capture_all_errors c)
    ∧ capture !! u "capture_git_commits"
      = Some (Config.capture_git_commits c)
    ∧ capture !! u "capture_build_commands"
      = Some (Config.capture_build_commands c)
    ∧ heartbeat !! u "enabled" = Some (Config.heartbeat_enabled c)
    ∧ heartbeat !! u "interval_minutes"
      = Some (Config.heartbeat_interval_minutes c)
    ∧ output !! u "max_entry_length" = Some (Config.max_entry_length c)
    ∧ output !! u "include_timestamps" = Some (Config.include_timestamps c)
    ∧ output !! u "format" = Some (Config.format c)
    ∧ llm !! u "enabled" = Some (Config.llm_enabled c)
    ∧ llm !! u "provider" = Some (Config.llm_provider c)
    ∧ llm !! u "model" = Some (Config.llm_model c)
    ∧ llm !! u "summarize_errors" = Some (Config.summarize_errors c).
Proof. eexists _, _, _, _, _. repeat split; reflexivity. Qed.

(** X22. [from_dict] undoes [to_dict]: the dictionary of a configuration
    is read back without failure as the same configuration, whatever its
    fields hold. *)
Theorem config_round_trip (c : Config.ShadowConfig) :
  Config.from_dict (Config.to_dict c) = Ok c.
Proof.
  destruct (to_dict_sections c)
    as (project & capture & heartbeat & output & llm
        & Hp & Hc & Hh & Ho & Hl
        & H1 & H2 & H3 & H4 & H5 & H6 & H7 & H8 & H9 & H10 & H11 & H12
        & H13 & H14 & H15 & H16).
  unfold Config.from_dict. rewrite Hp, Hc, Hh, Ho, Hl.
  unfold Config.ignore_commands_of, Config.field.
  rewrite H1, H2, H3, H4, H5, H6, H7, H8, H9, H10, H11, H12, H13, H14,
    H15, H16.
  unfold id. cbn [default Config.py_set]. rewrite list_to_set_elements_L.
  by destruct c.
Qed.

(** X23. What [from_dict] does with sections that are missing or
    incomplete.  A document with no sections gives the defaults.  A
    [capture] section that does not list [ignore_commands] gives an empty
    ignore set, not the default one, whatever else the document holds. *)
Theorem config_missing_parts :
  Config.from_dict ∅ = Ok Config.defaults
  ∧ ∀ data entries c,
      data !! u "capture" = Some (Config.Mapping entries) →
      entries !! u "ignore_commands" = None →
      Config.from_dict data = Ok c →
      Config.ignore_commands c = ∅.
Proof.
  split; [reflexivity |]. intros data entries c Hcapture Hnone.
  unfold Config.from_dict.
  destruct (Config.section data "project") as [project | e]; [| done].
  unfold Config.section at 1. rewrite Hcapture.
  unfold Config.ignore_commands_of. rewrite Hnone.
  unfold id. cbn [default Config.py_set].
  destruct (Config.section data "heartbeat"); [| done].
  destruct (Config.section data "output"); [| done].
  destruct (Config.section data "llm"); [| done].
  by intros [= <-].
Qed.

Lemma config_missing_parts_witness :
  ∃ c, Config.from_dict Config.capture_flag_only = Ok c
       ∧ Config.ignore_commands c = ∅
       ∧ Config.capture_git_commits c = Config.CBool false
       ∧ Config.capture_all_errors c = Config.CBool true.
Proof.
  destruct config_missing_parts as [_ Hcapture].
  eexists. split; [reflexivity |].
  split; [| split; reflexivity].
  eapply (Hcapture Config.capture_flag_only); reflexivity.
Defined.

(* ===================================================================== *)
(** * The quick check of the hook                                         *)
(* ===================================================================== *)

Lemma word_pattern_newline (T : tables) (r : regex) :
  is_word T NL = false →
  search T true (Seq WordB r) [NL] = None.
Proof.
  intros Hnl. unfold search. cbn [search_from]. unfold match_here.
  cbn [rmatch]. unfold word_before, word_ahead, start_pos.
  cbn [before rest]. by rewrite Hnl.
Qed.

Lemma default_patterns_newline (T : tables) :
  is_word T NL = false →
  List.find (λ p, bool_decide (is_Some (search T true (ast p) [NL])))
            (SIGNIFICANT_PATTERNS default_filter) = None.
Proof.
  intros Hnl.
  assert (Hall : Forall (λ p, ∃ r, ast p = Seq WordB r)
                        (SIGNIFICANT_PATTERNS default_filter))
    by (repeat constructor; eexists; reflexivity).
  induction Hall as [| p ps [r Hp] _ IH]; [reflexivity |].
  cbn [List.find]. rewrite Hp, word_pattern_newline by done.
  rewrite bool_decide_eq_false_2 by (by intros [? ?]). exact IH.
Qed.

(** X24. The quick check errs on one side only.  [check_significant] sees
    the command and the exit code but no output; when it reports a kind,
    [classify] reports some kind other than NOISE for the same command
    and exit code with any output, so [log_command] records the event.
    (The tables are assumed not to count the newline as a word
    character, as Unicode has it.) *)
Theorem check_significant_sound (T : tables) (cmd : str) (code : Z)
    (t : datetime) (kind : EventType) (event : CommandResult) :
  is_word T NL = false →
  check_significant T cmd code t = Some kind →
  command event = cmd →
  exit_code event = code →
  classify T default_filter event ≠ NOISE.
Proof.
  intros Hnl Hcheck <- <-. unfold check_significant in Hcheck.
  destruct (EventType_eqb (classify T default_filter _) NOISE) eqn:Hquick;
    [done |]. clear Hcheck.
  unfold classify in *. cbn [exit_code command stdout stderr] in Hquick.
  destruct (negb (exit_code event =? 0)%Z); [done |].
  destruct (split_ws (strip (command event))) as [| first rest];
    [done |].
  destruct (bool_decide (lower T first ∈ IGNORE_COMMANDS default_filter));
    [done |].
  destruct (existsb _ (elements (ALWAYS_CAPTURE default_filter))); [done |].
  cbn [app] in Hquick. rewrite default_patterns_newline in Hquick by done.
  destruct (existsb _ decision_patterns); [| done].
  destruct (List.find _ _) as [p |]; [| done].
  by destruct (existsb _ error_words).
Qed.

Lemma check_significant_sound_witness :
  classify ascii_tables default_filter (gh_result "no open pull requests" "")
  ≠ NOISE.
Proof.
  apply (check_significant_sound ascii_tables (u "gh pr list") 0 noon
           DECISION (gh_result "no open pull requests" ""));
    vm_compute; reflexivity.
Defined.
